(** * WorldDistanceBlend: the blend-weight subsystem, embedded and verified

    The development follows [UWorldDistanceBlendSubsystem]
    (Source/WorldDistanceBlend/Public/WorldDistanceBlendSubsystem.h) and the
    record [FDistanceBlendWeight] (DistanceBlendTypes.h).

    - The subsystem's members become a record, its member functions become
      functions from a state to a state.
    - [GetBlendWeights] is [const] in the source but writes through
      [MutableThis] and through [W.Component->BlendWeight]; here it returns
      the new subsystem, the new per-component storage, the calls it made
      to the engine, the returned array and [bValid].
    - [float] and the engine's [FVector] are interfaces ([FloatOps],
      [Engine]): the code is written once over them.  Two instances follow:
      exact arithmetic over the rationals extended with the infinities and
      NaN (module [Exact]), and IEEE binary32 (module [Binary32]). *)

From Stdlib Require Import ZArith QArith Qabs Lqa Lia List Bool.
From Stdlib Require Import Floats.SpecFloat.
From stdpp Require Import base option list gmap.

Open Scope Z_scope.

(** ** Interfaces: [float] and the engine's vectors *)

(** The operations on [float] the source uses. *)
Class FloatOps := {
  F : Type;
  fzero : F;                (* 0.f *)
  fone : F;                 (* 1.f *)
  fINFINITY : F;            (* INFINITY *)
  fadd : F -> F -> F;
  fmul : F -> F -> F;
  fdiv : F -> F -> F;
  flt : F -> F -> bool;     (* operator< *)
  fof_int32 : Z -> F        (* int32 to float, for [x / Weights.Num()] *)
}.

(** Strictly between zero and [INFINITY], by the source's own comparison. *)
Definition positive_finite `{FloatOps} (x : F) : bool :=
  flt fzero x && flt x fINFINITY.


(** What the source uses of [FVector]: the difference of two locations and
    the two lengths.  They are the engine's, not the plugin's. *)
Class Engine `{FloatOps} := {
  FVector : Type;
  FVector_sub : FVector -> FVector -> FVector;   (* operator- *)
  Size : FVector -> F;                            (* length *)
  Size2D : FVector -> F                           (* length ignoring Z *)
}.

(** Object identities.  [Comp] is a non-null [UDistanceBlendComponent*]
    (registering a null pointer is outside the contract and would crash
    [GetBlendWeights]); [Actor] is a non-null [AActor*]. *)
Definition Comp := positive.
Definition Actor := positive.

(** ** [uint64] *)

Definition uint64_modulus : Z := 2 ^ 64.
Definition to_uint64 (z : Z) : Z := z mod uint64_modulus.

(** ** [TArray], as far as the subsystem uses it *)

Module TArray.
Section Ops.
Context {A : Type} `{EqDecision A}.

Definition Empty (_ : list A) : list A := [].
Definition Num (l : list A) : Z := Z.of_nat (length l).
Definition Add (l : list A) (x : A) : list A := l ++ [x].

(** [AddUnique]: appended only when no equal element is there. *)
Definition AddUnique (l : list A) (x : A) : list A :=
  if decide (x ∈ l) then l else Add l x.

(** [Remove]: every element equal to [x] goes; the others keep their
    order. *)
Definition Remove (l : list A) (x : A) : list A :=
  filter (λ y, y ≠ x) l.
End Ops.
End TArray.

Section Subsystem.
Context `{EN : Engine}.

(** ** DistanceBlendTypes.h *)

Record FDistanceBlendWeight := mkWeight {
  Component : option Comp;     (* [None] is nullptr *)
  BlendWeight : F;
  DistanceBias : F;
  Scalar : F;
  Dist : F
}.

(** The constructor [FDistanceBlendWeight(InComponent = nullptr)]. *)
Definition FDistanceBlendWeight_new (InComponent : option Comp)
  : FDistanceBlendWeight :=
  {| Component := InComponent; BlendWeight := fzero; DistanceBias := fone;
     Scalar := fone; Dist := fzero |}.

Definition with_BlendWeight (W : FDistanceBlendWeight) (x : F) :=
  {| Component := Component W; BlendWeight := x;
     DistanceBias := DistanceBias W; Scalar := Scalar W; Dist := Dist W |}.
Definition with_DistanceBias (W : FDistanceBlendWeight) (x : F) :=
  {| Component := Component W; BlendWeight := BlendWeight W;
     DistanceBias := x; Scalar := Scalar W; Dist := Dist W |}.
Definition with_Scalar (W : FDistanceBlendWeight) (x : F) :=
  {| Component := Component W; BlendWeight := BlendWeight W;
     DistanceBias := DistanceBias W; Scalar := x; Dist := Dist W |}.
Definition with_Dist (W : FDistanceBlendWeight) (x : F) :=
  {| Component := Component W; BlendWeight := BlendWeight W;
     DistanceBias := DistanceBias W; Scalar := Scalar W; Dist := x |}.

(** ** What the subsystem reads from outside itself during one call *)

Record World := {
  GFrameCounter : Z;                        (* uint64 *)
  IsValidActor : Actor -> bool;             (* does a weak pointer to it resolve *)
  GetActorLocation : Actor -> FVector;
  IsPlayerCameraManager : Actor -> bool;    (* Cast<APlayerCameraManager> succeeds *)
  GetCameraLocation : Actor -> FVector;
  GetOwner : Comp -> Actor;
  GetBlendScalar : Comp -> F
}.

(** Calls into the engine made while gathering, in program order. *)
Inductive Call :=
| CallGetBlendScalar (c : Comp)
| CallGetActorLocation (a : Actor)
| CallGetCameraLocation (a : Actor).

(** ** The subsystem's members *)

Record UWorldDistanceBlendSubsystem := mkSubsystem {
  BlendComponents : list Comp;
  LastUpdateFrame : Z;                      (* uint64 *)
  BlendTarget : option Actor;               (* TWeakObjectPtr<AActor> *)
  BlendWeights : list FDistanceBlendWeight;
  LastValidBlendWeights : list FDistanceBlendWeight
}.

(** [uint64 LastUpdateFrame = -1]: the conversion wraps. *)
Definition InvalidFrame : Z := to_uint64 (-1).

(** The subsystem as constructed. *)
Definition Subsystem_new : UWorldDistanceBlendSubsystem :=
  {| BlendComponents := []; LastUpdateFrame := InvalidFrame;
     BlendTarget := None; BlendWeights := [];
     LastValidBlendWeights := [] |}.

(** Each component's own member [BlendWeight]; a component that was never
    written still holds the default-constructed record. *)
Definition CompStore := gmap Comp FDistanceBlendWeight.

Definition Comp_BlendWeight (h : CompStore) (c : Comp) : FDistanceBlendWeight :=
  default (FDistanceBlendWeight_new None) (h !! c).

Definition ShouldUpdateDistance (w : World) (s : UWorldDistanceBlendSubsystem)
  : bool :=
  negb (GFrameCounter w =? LastUpdateFrame s).

(** [BlendTarget.IsValid()]: set, and the actor still exists. *)
Definition BlendTarget_IsValid (w : World) (s : UWorldDistanceBlendSubsystem)
  : bool :=
  match BlendTarget s with
  | Some a => IsValidActor w a
  | None => false
  end.

(** ** AssignBlendTarget *)

(** [NewBlendTarget != BlendTarget] is taken as identity of the object
    pointed to. *)
Definition AssignBlendTarget (NewBlendTarget : option Actor)
    (s : UWorldDistanceBlendSubsystem) : UWorldDistanceBlendSubsystem :=
  let s1 :=
    if decide (NewBlendTarget ≠ BlendTarget s) then
      {| BlendComponents := BlendComponents s;
         LastUpdateFrame := to_uint64 (-1);
         BlendTarget := BlendTarget s;
         BlendWeights := TArray.Empty (BlendWeights s);
         LastValidBlendWeights := LastValidBlendWeights s |}
    else s in
  {| BlendComponents := BlendComponents s1;
     LastUpdateFrame := LastUpdateFrame s1;
     BlendTarget := NewBlendTarget;
     BlendWeights := BlendWeights s1;
     LastValidBlendWeights := LastValidBlendWeights s1 |}.

(** ** RegisterBlendComponent, UnregisterBlendComponent *)

Definition RegisterBlendComponent (BlendComponent : Comp)
    (s : UWorldDistanceBlendSubsystem) : UWorldDistanceBlendSubsystem :=
  {| BlendComponents := TArray.AddUnique (BlendComponents s) BlendComponent;
     LastUpdateFrame := LastUpdateFrame s;
     BlendTarget := BlendTarget s;
     BlendWeights := BlendWeights s;
     LastValidBlendWeights := LastValidBlendWeights s |}.

Definition UnregisterBlendComponent (BlendComponent : Comp)
    (s : UWorldDistanceBlendSubsystem) : UWorldDistanceBlendSubsystem :=
  {| BlendComponents := TArray.Remove (BlendComponents s) BlendComponent;
     LastUpdateFrame := LastUpdateFrame s;
     BlendTarget := BlendTarget s;
     BlendWeights := BlendWeights s;
     LastValidBlendWeights := LastValidBlendWeights s |}.

(** ** GetLastValidBlendWeights *)

Definition GetLastValidBlendWeights (s : UWorldDistanceBlendSubsystem)
  : list FDistanceBlendWeight * bool :=
  let bValid := 0 <? TArray.Num (LastValidBlendWeights s) in
  (LastValidBlendWeights s, bValid).

(** ** GetBlendWeights *)

(** The location distances are measured to (lines 131-135). *)
Definition TargetLocation (w : World) (target : Actor) : FVector :=
  if IsPlayerCameraManager w target then GetCameraLocation w target
  else GetActorLocation w target.

Definition TargetLocation_calls (w : World) (target : Actor) : list Call :=
  CallGetActorLocation target ::
  (if IsPlayerCameraManager w target then [CallGetCameraLocation target]
   else []).

(** Body of the gathering loop (lines 120-143) for one component. *)
Definition GatherOne (w : World) (target : Actor) (bDistanceXY : bool)
    (c : Comp) : FDistanceBlendWeight :=
  let W0 := FDistanceBlendWeight_new (Some c) in
  let Owner := GetOwner w c in
  let W1 := with_Scalar W0 (GetBlendScalar w c) in
  let Diff := FVector_sub (TargetLocation w target) (GetActorLocation w Owner) in
  with_Dist W1 (if bDistanceXY then Size2D Diff else Size Diff).

Definition GatherOne_calls (w : World) (target : Actor) (c : Comp)
  : list Call :=
  CallGetBlendScalar c :: TargetLocation_calls w target
    ++ [CallGetActorLocation (GetOwner w c)].

Definition GatherStep (w : World) (target : Actor) (bDistanceXY : bool)
    (acc : list FDistanceBlendWeight * F * list Call) (c : Comp)
  : list FDistanceBlendWeight * F * list Call :=
  let '(Weights, TotalDistances, calls) := acc in
  let W := GatherOne w target bDistanceXY c in
  (TArray.Add Weights W, fadd TotalDistances (Dist W),
   calls ++ GatherOne_calls w target c).

(** Lines 152-159. *)
Definition BiasOne (AverageDistances : F) (W : FDistanceBlendWeight)
  : FDistanceBlendWeight :=
  let W1 := with_DistanceBias W (fdiv AverageDistances (Dist W)) in
  with_BlendWeight W1 (fmul (DistanceBias W1) (Scalar W1)).

(** Lines 166-173. *)
Definition LowestStep (Lowest : F) (W : FDistanceBlendWeight) : F :=
  if flt (BlendWeight W) Lowest then BlendWeight W else Lowest.

(** [W.BlendWeight /= x]. *)
Definition DivideOne (x : F) (W : FDistanceBlendWeight)
  : FDistanceBlendWeight :=
  with_BlendWeight W (fdiv (BlendWeight W) x).

(** Lines 176-180: the weights are rewritten in place while [Sum] grows. *)
Definition DivideStep (Lowest : F)
    (acc : list FDistanceBlendWeight * F) (W : FDistanceBlendWeight)
  : list FDistanceBlendWeight * F :=
  let '(out, Sum) := acc in
  let W1 := DivideOne Lowest W in
  (out ++ [W1], fadd Sum (BlendWeight W1)).

(** Lines 183-187: scale, and copy the record into its component. *)
Definition ScaleStep (Sum : F)
    (acc : list FDistanceBlendWeight * CompStore) (W : FDistanceBlendWeight)
  : list FDistanceBlendWeight * CompStore :=
  let '(out, h) := acc in
  let W1 := DivideOne Sum W in
  (out ++ [W1],
   match Component W1 with
   | Some c => <[c := W1]> h
   | None => h
   end).

(** The stages of lines 150-188, on the gathered records. *)
Definition AverageDistances (Weights : list FDistanceBlendWeight)
    (TotalDistances : F) : F :=
  fdiv TotalDistances (fof_int32 (TArray.Num Weights)).

Definition BiasWeights (Weights : list FDistanceBlendWeight)
    (TotalDistances : F) : list FDistanceBlendWeight :=
  map (BiasOne (AverageDistances Weights TotalDistances)) Weights.

Definition LowestWeight (Weights : list FDistanceBlendWeight) : F :=
  fold_left LowestStep Weights fINFINITY.

Definition DivideWeights (Weights : list FDistanceBlendWeight)
  : list FDistanceBlendWeight * F :=
  fold_left (DivideStep (LowestWeight Weights)) Weights ([], fzero).

Definition ScaleWeights (Weights : list FDistanceBlendWeight)
    (TotalDistances : F) (h : CompStore)
  : list FDistanceBlendWeight * CompStore :=
  let '(Weights2, Sum) := DivideWeights (BiasWeights Weights TotalDistances) in
  fold_left (ScaleStep Sum) Weights2 ([], h).

(** Lines 114-143. *)
Definition GatherWeights (w : World) (target : Actor) (bDistanceXY : bool)
    (s : UWorldDistanceBlendSubsystem)
  : list FDistanceBlendWeight * F * list Call :=
  fold_left (GatherStep w target bDistanceXY) (BlendComponents s)
            (TArray.Empty (BlendWeights s), fzero, []).

(** What one call hands back. *)
Record Outcome := {
  subsystem' : UWorldDistanceBlendSubsystem;
  store' : CompStore;
  calls : list Call;
  returned : list FDistanceBlendWeight;
  bValid : bool
}.

(** The branch under [if (ShouldUpdateDistance())], lines 110-193, for a
    target that resolved to [target]. *)
Definition UpdateBlendWeights (w : World) (bDistanceXY : bool)
    (target : Actor) (s : UWorldDistanceBlendSubsystem) (h : CompStore)
  : Outcome :=
  let stamp := GFrameCounter w in
  let '(Weights, TotalDistances, cs) :=
    GatherWeights w target bDistanceXY s in
  if TArray.Num Weights =? 0 then
    let s1 := {| BlendComponents := BlendComponents s;
                 LastUpdateFrame := stamp;
                 BlendTarget := BlendTarget s;
                 BlendWeights := Weights;
                 LastValidBlendWeights := LastValidBlendWeights s |} in
    {| subsystem' := s1; store' := h; calls := cs;
       returned := BlendWeights s1; bValid := false |}
  else
    let '(Weights', h') := ScaleWeights Weights TotalDistances h in
    let s1 := {| BlendComponents := BlendComponents s;
                 LastUpdateFrame := stamp;
                 BlendTarget := BlendTarget s;
                 BlendWeights := Weights';
                 LastValidBlendWeights :=
                   if 0 <? TArray.Num Weights' then Weights'
                   else LastValidBlendWeights s |} in
    {| subsystem' := s1; store' := h'; calls := cs;
       returned := BlendWeights s1;
       bValid := 0 <? TArray.Num (BlendWeights s1) |}.

Definition GetBlendWeights (w : World) (bDistanceXY : bool)
    (s : UWorldDistanceBlendSubsystem) (h : CompStore) : Outcome :=
  match BlendTarget s with
  | Some target =>
      if IsValidActor w target then
        if ShouldUpdateDistance w s then
          UpdateBlendWeights w bDistanceXY target s h
        else
          {| subsystem' := s; store' := h; calls := [];
             returned := BlendWeights s;
             bValid := 0 <? TArray.Num (BlendWeights s) |}
      else
        {| subsystem' := s; store' := h; calls := [];
           returned := BlendWeights s; bValid := false |}
  | None =>
      {| subsystem' := s; store' := h; calls := [];
         returned := BlendWeights s; bValid := false |}
  end.

(** ** Sequences of calls

    The world may differ from one [GetBlendWeights] to the next (frames
    pass, actors move or are destroyed), so each call carries its own. *)

Inductive Op :=
| OpRegister (c : Comp)
| OpUnregister (c : Comp)
| OpAssignBlendTarget (t : option Actor)
| OpGetBlendWeights (w : World) (bDistanceXY : bool)
| OpGetLastValidBlendWeights.

Definition step (st : UWorldDistanceBlendSubsystem * CompStore) (op : Op)
  : UWorldDistanceBlendSubsystem * CompStore :=
  let '(s, h) := st in
  match op with
  | OpRegister c => (RegisterBlendComponent c s, h)
  | OpUnregister c => (UnregisterBlendComponent c s, h)
  | OpAssignBlendTarget t => (AssignBlendTarget t s, h)
  | OpGetBlendWeights w b =>
      let o := GetBlendWeights w b s h in (subsystem' o, store' o)
  | OpGetLastValidBlendWeights => (s, h)
  end.

Definition run (ops : list Op)
    (st : UWorldDistanceBlendSubsystem * CompStore) :=
  fold_left step ops st.

(** The components some [OpUnregister] of the sequence names. *)
Definition unregistered (ops : list Op) : list Comp :=
  flat_map (λ op, match op with OpUnregister c => [c] | _ => [] end) ops.

(** [n] further calls of [GetBlendWeights] in the same world, after a call
    with outcome [o]; the engine calls accumulate. *)
Fixpoint GetBlendWeights_again (n : nat) (w : World) (bDistanceXY : bool)
    (o : Outcome) : Outcome :=
  match n with
  | O => o
  | S n' =>
      let o' := GetBlendWeights w bDistanceXY (subsystem' o) (store' o) in
      GetBlendWeights_again n' w bDistanceXY
        {| subsystem' := subsystem' o'; store' := store' o';
           calls := calls o ++ calls o';
           returned := returned o'; bValid := bValid o' |}
  end.

(** The sum of the [BlendWeight] fields, accumulated left to right. *)
Definition SumBlendWeights (ws : list FDistanceBlendWeight) : F :=
  fold_left (λ acc W, fadd acc (BlendWeight W)) ws fzero.

(** Worlds for worked examples: actor 1 is the target; component [c] is
    owned by actor [10 + c]; no camera manager. *)
Definition owner_of (c : Comp) : Actor := (10 + c)%positive.

Definition world_of (frame : Z) (target_alive : bool)
    (location : Actor -> FVector) (scalar : Comp -> F) : World :=
  {| GFrameCounter := frame;
     IsValidActor := λ a, if decide (a = 1%positive) then target_alive else true;
     GetActorLocation := location;
     IsPlayerCameraManager := λ _, false;
     GetCameraLocation := location;
     GetOwner := owner_of;
     GetBlendScalar := scalar |}.

Definition registered_2 : UWorldDistanceBlendSubsystem :=
  AssignBlendTarget (Some 1%positive)
    (RegisterBlendComponent 2%positive
      (RegisterBlendComponent 1%positive Subsystem_new)).

Definition registered_3 : UWorldDistanceBlendSubsystem :=
  AssignBlendTarget (Some 1%positive)
    (RegisterBlendComponent 3%positive registered_2).

(** The distance the gathering loop records for a component. *)
Definition DistanceTo (w : World) (target : Actor) (bDistanceXY : bool)
    (c : Comp) : F :=
  Dist (GatherOne w target bDistanceXY c).

(** Every registered component has a positive finite distance to the
    target and a positive finite scalar. *)
Definition all_positive (w : World) (target : Actor) (bDistanceXY : bool)
    (s : UWorldDistanceBlendSubsystem) : bool :=
  forallb (λ c, positive_finite (DistanceTo w target bDistanceXY c)
                && positive_finite (GetBlendScalar w c))
          (BlendComponents s).

(** The cache is empty or is the last valid snapshot. *)
Definition cache_is_last_valid (s : UWorldDistanceBlendSubsystem) : Prop :=
  BlendWeights s = [] ∨ BlendWeights s = LastValidBlendWeights s.





End Subsystem.

Arguments FDistanceBlendWeight {_}.
Arguments UWorldDistanceBlendSubsystem {_}.
Arguments World {_ _}.
Arguments CompStore {_}.
Arguments Outcome {_}.
Arguments Op {_ _}.

(** ** Exact arithmetic

    [float] read as the rationals, closed with the two infinities and NaN
    so that [INFINITY] and the divisions by zero of the source have their
    IEEE outcome.  No rounding, no overflow, one zero.  Finite results are
    kept in lowest terms, so equal numbers are equal terms. *)

Module Exact.

Inductive XQ := Fin (q : Q) | PInf | NInf | NaN.

Definition Qpositive (q : Q) : bool := negb (Qle_bool q 0).
Definition Qzero (q : Q) : bool := Qeq_bool q 0.

Definition signed_inf (positive_sign : bool) : XQ :=
  if positive_sign then PInf else NInf.

(** An infinity of the given sign times, or divided by, the finite [q];
    the one zero counts as positive in a division. *)
Definition inf_times (positive_sign : bool) (q : Q) : XQ :=
  if Qzero q then NaN
  else signed_inf (if Qpositive q then positive_sign else negb positive_sign).

Definition inf_over (positive_sign : bool) (q : Q) : XQ :=
  signed_inf (if Qle_bool 0 q then positive_sign else negb positive_sign).

Definition xadd (a b : XQ) : XQ :=
  match a, b with
  | NaN, _ | _, NaN => NaN
  | Fin x, Fin y => Fin (Qred (x + y))
  | PInf, NInf | NInf, PInf => NaN
  | PInf, _ | _, PInf => PInf
  | NInf, _ | _, NInf => NInf
  end.

Definition xmul (a b : XQ) : XQ :=
  match a, b with
  | NaN, _ | _, NaN => NaN
  | Fin x, Fin y => Fin (Qred (x * y))
  | PInf, Fin q | Fin q, PInf => inf_times true q
  | NInf, Fin q | Fin q, NInf => inf_times false q
  | PInf, PInf | NInf, NInf => PInf
  | PInf, NInf | NInf, PInf => NInf
  end.

Definition xdiv (a b : XQ) : XQ :=
  match a, b with
  | NaN, _ | _, NaN => NaN
  | Fin x, Fin y =>
      if Qzero y then
        if Qzero x then NaN else signed_inf (Qpositive x)
      else Fin (Qred (x / y))
  | Fin _, (PInf | NInf) => Fin 0
  | PInf, Fin q => inf_over true q
  | NInf, Fin q => inf_over false q
  | (PInf | NInf), (PInf | NInf) => NaN
  end.

Definition xlt (a b : XQ) : bool :=
  match a, b with
  | NaN, _ | _, NaN => false
  | Fin x, Fin y => negb (Qle_bool y x)
  | NInf, (Fin _ | PInf) => true
  | Fin _, PInf => true
  | _, _ => false
  end.


Definition xopp (a : XQ) : XQ :=
  match a with
  | Fin x => Fin (Qred (- x))
  | PInf => NInf
  | NInf => PInf
  | NaN => NaN
  end.

Definition xsub (a b : XQ) : XQ := xadd a (xopp b).

(** Square root: exact on the squares of rationals, which is all the
    worked examples need; elsewhere the root of the numerator is rounded
    down.  Nothing proved in general depends on it. *)
Definition xsqrt (a : XQ) : XQ :=
  match a with
  | Fin x =>
      if Qle_bool 0 x
      then Fin (Qred (Z.sqrt (Qnum x * Zpos (Qden x)) # Qden x))
      else NaN
  | PInf => PInf
  | NInf | NaN => NaN
  end.

#[export] Instance XQ_FloatOps : FloatOps := {|
  F := XQ;
  fzero := Fin 0;
  fone := Fin 1;
  fINFINITY := PInf;
  fadd := xadd;
  fmul := xmul;
  fdiv := xdiv;
  flt := xlt;
  fof_int32 := λ z, Fin (inject_Z z)
|}.

(** The number a finite value stands for. *)
Definition val (x : XQ) : Q := match x with Fin q => q | _ => 0%Q end.

Definition Qsum (l : list Q) : Q := fold_right Qplus 0%Q l.

(** The engine's vectors over these numbers. *)
Record XVector := { vX : XQ; vY : XQ; vZ : XQ }.

Definition XVector_sub (a b : XVector) : XVector :=
  {| vX := xsub (vX a) (vX b); vY := xsub (vY a) (vY b);
     vZ := xsub (vZ a) (vZ b) |}.
Definition XVector_Size (v : XVector) : XQ :=
  xsqrt (xadd (xadd (xmul (vX v) (vX v)) (xmul (vY v) (vY v)))
              (xmul (vZ v) (vZ v))).
Definition XVector_Size2D (v : XVector) : XQ :=
  xsqrt (xadd (xmul (vX v) (vX v)) (xmul (vY v) (vY v))).

#[export] Instance XQ_Engine : Engine := {|
  FVector := XVector;
  FVector_sub := XVector_sub;
  Size := XVector_Size;
  Size2D := XVector_Size2D
|}.

Definition vec (x y z : Q) : XVector :=
  {| vX := Fin x; vY := Fin y; vZ := Fin z |}.

(** *** Worlds for the worked examples *)

(** Three components, 10, 20 and 30 away from the target in the XY
    plane, at different heights. *)
Definition location_10_20_30 (a : Actor) : XVector :=
  match a with
  | 11%positive => vec 6 8 5
  | 12%positive => vec 12 16 (-7)
  | 13%positive => vec 18 24 100
  | _ => vec 0 0 0
  end.

Definition world_10_20_30 : World :=
  world_of 7 true location_10_20_30 (λ _, Fin 1).




(** The same world as [world_10_20_30] one frame later, after the target
    actor was destroyed. *)
Definition world_target_destroyed : World :=
  world_of 8 false location_10_20_30 (λ _, Fin 1).

(** One frame after [world_10_20_30], the target still alive. *)
Definition world_next_frame : World :=
  world_of 8 true location_10_20_30 (λ _, Fin 1).

(** The subsystem after one evaluation of the three components in frame
    7. *)
Definition evaluated_3 : UWorldDistanceBlendSubsystem :=
  subsystem' (GetBlendWeights world_10_20_30 true registered_3 ∅).

(** *** Scalar over distance *)










(** The 10-20-30 world seen through a camera: the target, actor 1, is a
    player camera manager whose camera is at the origin while the manager
    itself is far away; and the same world with the manager moved. *)
Definition world_camera : World :=
  {| GFrameCounter := 7;
     IsValidActor := λ _, true;
     GetActorLocation :=
       λ a, if decide (a = 1%positive) then vec 1000 1000 1000
            else location_10_20_30 a;
     IsPlayerCameraManager := λ a, bool_decide (a = 1%positive);
     GetCameraLocation := λ _, vec 0 0 0;
     GetOwner := owner_of;
     GetBlendScalar := λ _, Fin 1 |}.

Definition world_camera_moved : World :=
  {| GFrameCounter := GFrameCounter world_camera;
     IsValidActor := IsValidActor world_camera;
     GetActorLocation :=
       λ a, if decide (a = 1%positive) then vec (-3) 7 50
            else GetActorLocation world_camera a;
     IsPlayerCameraManager := IsPlayerCameraManager world_camera;
     GetCameraLocation := GetCameraLocation world_camera;
     GetOwner := GetOwner world_camera;
     GetBlendScalar := GetBlendScalar world_camera |}.


(** *** The invariant on the cached arrays *)

(** An array is empty or its weights add up to 1. *)
Definition sums_to_one (ws : list FDistanceBlendWeight) : Prop :=
  ws = [] ∨ SumBlendWeights ws = Fin 1.

(** Along the sequence, whenever [GetBlendWeights] is called with a target
    that resolves, every component registered at that moment has a
    positive finite distance and a positive finite scalar. *)
Fixpoint positive_calls (ops : list Op)
    (st : UWorldDistanceBlendSubsystem * CompStore) : Prop :=
  match ops with
  | [] => True
  | op :: ops' =>
      match op with
      | OpGetBlendWeights w b =>
          ∀ a, BlendTarget st.1 = Some a → IsValidActor w a = true →
               all_positive w a b st.1 = true
      | _ => True
      end
      ∧ positive_calls ops' (step st op)
  end.

(** *** Shapes of records, for the proofs *)

(** A record whose weight is a positive number. *)
Definition pos_weight (W : FDistanceBlendWeight) : Prop :=
  ∃ q, BlendWeight W = Fin q ∧ (0 < q)%Q.

(** A gathered record whose distance and scalar are positive numbers. *)
Definition pos_record (W : FDistanceBlendWeight) : Prop :=
  ∃ d sc, Dist W = Fin d ∧ Scalar W = Fin sc ∧ (0 < d)%Q ∧ (0 < sc)%Q.








(** A final record: its weight is [k * scalar / distance]. *)
Definition scaled_record (k : Q) (W : FDistanceBlendWeight) : Prop :=
  ∃ d sc q, Dist W = Fin d ∧ Scalar W = Fin sc ∧ BlendWeight W = Fin q
            ∧ (0 < d)%Q ∧ (0 < sc)%Q ∧ (q == k * sc / d)%Q.

End Exact.

(** ** IEEE binary32

    [float] as the source has it: 24 bits of precision, round to nearest
    even, signed zeros, infinities and NaN, through the standard library's
    executable specification of IEEE arithmetic. *)

Module Binary32.

Definition prec : Z := 24.
Definition emax : Z := 128.

Definition of_Z (z : Z) : spec_float := binary_normalize prec emax z 0 false.

#[export] Instance B32_FloatOps : FloatOps := {|
  F := spec_float;
  fzero := S754_zero false;
  fone := of_Z 1;
  fINFINITY := S754_infinity false;
  fadd := SFadd prec emax;
  fmul := SFmul prec emax;
  fdiv := SFdiv prec emax;
  flt := SFltb;
  fof_int32 := of_Z
|}.

Record BVector := { bX : spec_float; bY : spec_float; bZ : spec_float }.

Definition BVector_sub (a b : BVector) : BVector :=
  {| bX := SFsub prec emax (bX a) (bX b);
     bY := SFsub prec emax (bY a) (bY b);
     bZ := SFsub prec emax (bZ a) (bZ b) |}.
Definition sq (x : spec_float) : spec_float := SFmul prec emax x x.
Definition BVector_Size (v : BVector) : spec_float :=
  SFsqrt prec emax
    (SFadd prec emax (SFadd prec emax (sq (bX v)) (sq (bY v))) (sq (bZ v))).
Definition BVector_Size2D (v : BVector) : spec_float :=
  SFsqrt prec emax (SFadd prec emax (sq (bX v)) (sq (bY v))).

#[export] Instance B32_Engine : Engine := {|
  FVector := BVector;
  FVector_sub := BVector_sub;
  Size := BVector_Size;
  Size2D := BVector_Size2D
|}.

Definition bvec (x y z : Z) : BVector :=
  {| bX := of_Z x; bY := of_Z y; bZ := of_Z z |}.

Definition b32_location_10_20_30 (a : Actor) : BVector :=
  match a with
  | 11%positive => bvec 6 8 5
  | 12%positive => bvec 12 16 (-7)
  | 13%positive => bvec 18 24 100
  | _ => bvec 0 0 0
  end.

Definition b32_world_10_20_30 : World :=
  world_of 7 true b32_location_10_20_30 (λ _, of_Z 1).

Definition b32_location_5_5 (a : Actor) : BVector :=
  match a with
  | 11%positive => bvec 3 4 0
  | 12%positive => bvec (-4) 3 0
  | _ => bvec 0 0 0
  end.

Definition b32_scalar_1_m2 (c : Comp) : spec_float :=
  match c with
  | 2%positive => of_Z (-2)
  | _ => of_Z 1
  end.

(** Three components 7, 11 and 13 away along the X axis. *)
Definition b32_location_7_11_13 (a : Actor) : BVector :=
  match a with
  | 11%positive => bvec 7 0 0
  | 12%positive => bvec 11 0 0
  | 13%positive => bvec 13 0 0
  | _ => bvec 0 0 0
  end.

Definition b32_world_7_11_13 : World :=
  world_of 7 true b32_location_7_11_13 (λ _, of_Z 1).

(** Two components with scalar 1, at distances 0 and 5; and two components
    both 5 away with scalars 1 and 0. *)
Definition b32_location_0_5 (a : Actor) : BVector :=
  match a with
  | 12%positive => bvec 3 4 0
  | _ => bvec 0 0 0
  end.

Definition b32_world_zero_distance : World :=
  world_of 7 true b32_location_0_5 (λ _, of_Z 1).

Definition b32_scalar_1_0 (c : Comp) : spec_float :=
  match c with
  | 2%positive => of_Z 0
  | _ => of_Z 1
  end.

Definition b32_world_zero_scalar : World :=
  world_of 7 true b32_location_5_5 b32_scalar_1_0.

Definition b32_world_negative_scalar : World :=
  world_of 7 true b32_location_5_5 b32_scalar_1_m2.

(** [m * 2^e], the number a finite float stands for. *)
Definition to_Q (x : spec_float) : Q :=
  match x with
  | S754_finite sign m e =>
      let mag := (inject_Z (Zpos m) * (2 ^ e))%Q in
      if sign then (- mag)%Q else mag
  | _ => 0%Q
  end.

End Binary32.

(** * Properties of the code, whatever the arithmetic *)

Section SubsystemFacts.
Context `{EN : Engine}.

Implicit Types (s : UWorldDistanceBlendSubsystem) (h : CompStore)
  (w : World) (W : FDistanceBlendWeight) (ws : list FDistanceBlendWeight)
  (c : Comp) (comps : list Comp) (t : option Actor) (b : bool).

(** *** The loops, as maps and sums *)

Lemma fold_GatherStep w target b comps ws T cs :
  fold_left (GatherStep w target b) comps (ws, T, cs)
  = (ws ++ map (GatherOne w target b) comps,
     fold_left (λ acc c, fadd acc (DistanceTo w target b c)) comps T,
     cs ++ flat_map (GatherOne_calls w target) comps).
Proof.
  revert ws T cs.
  induction comps as [|c comps IH]; intros ws T cs.
  - simpl. by rewrite !app_nil_r.
  - cbn [fold_left map flat_map]. unfold GatherStep at 2.
    rewrite IH. unfold TArray.Add.
    f_equal; [f_equal |]; by rewrite <- app_assoc.
Qed.

Lemma fold_DivideStep Lowest ws out S :
  fold_left (DivideStep Lowest) ws (out, S)
  = (out ++ map (DivideOne Lowest) ws,
     fold_left (λ acc W, fadd acc (BlendWeight (DivideOne Lowest W))) ws S).
Proof.
  revert out S.
  induction ws as [|W ws IH]; intros out S; simpl.
  - by rewrite app_nil_r.
  - rewrite IH. by rewrite <- app_assoc.
Qed.

Lemma fold_ScaleStep_fst Sum ws out h :
  (fold_left (ScaleStep Sum) ws (out, h)).1
  = out ++ map (DivideOne Sum) ws.
Proof.
  revert out h.
  induction ws as [|W ws IH]; intros out h; simpl.
  - by rewrite app_nil_r.
  - rewrite IH. by rewrite <- app_assoc.
Qed.

Lemma GatherWeights_eq w target b s :
  GatherWeights w target b s
  = (map (GatherOne w target b) (BlendComponents s),
     fold_left (λ acc c, fadd acc (DistanceTo w target b c))
               (BlendComponents s) fzero,
     flat_map (GatherOne_calls w target) (BlendComponents s)).
Proof. unfold GatherWeights. by rewrite fold_GatherStep. Qed.

Lemma DivideWeights_eq ws :
  DivideWeights ws
  = (map (DivideOne (LowestWeight ws)) ws,
     fold_left (λ acc W, fadd acc (BlendWeight (DivideOne (LowestWeight ws) W)))
               ws fzero).
Proof. unfold DivideWeights. by rewrite fold_DivideStep. Qed.

Lemma SumBlendWeights_map (f : FDistanceBlendWeight → FDistanceBlendWeight)
    ws (S0 : F) :
  fold_left (λ acc W, fadd acc (BlendWeight W)) (map f ws) S0
  = fold_left (λ acc W, fadd acc (BlendWeight (f W))) ws S0.
Proof.
  revert S0. induction ws as [|W ws IH]; intros S0; [done|].
  simpl. apply IH.
Qed.

(** [Sum] is the sum of the weights as divided by [Lowest]. *)
Lemma DivideWeights_snd ws :
  (DivideWeights ws).2
  = SumBlendWeights (map (DivideOne (LowestWeight ws)) ws).
Proof.
  rewrite DivideWeights_eq. unfold SumBlendWeights.
  by rewrite SumBlendWeights_map.
Qed.

(** The array [ScaleWeights] leaves in [BlendWeights]. *)
Lemma ScaleWeights_fst ws T h :
  (ScaleWeights ws T h).1
  = map (DivideOne (DivideWeights (BiasWeights ws T)).2)
        (map (DivideOne (LowestWeight (BiasWeights ws T))) (BiasWeights ws T)).
Proof.
  unfold ScaleWeights. rewrite DivideWeights_eq. simpl.
  by rewrite fold_ScaleStep_fst.
Qed.

Lemma ScaleWeights_length ws T h :
  length (ScaleWeights ws T h).1 = length ws.
Proof.
  rewrite ScaleWeights_fst. unfold BiasWeights.
  by rewrite !length_map.
Qed.

(** Only [BlendWeight] and [DistanceBias] change after gathering. *)
Lemma ScaleWeights_fields ws T h :
  map (λ W, (Component W, Scalar W, Dist W)) (ScaleWeights ws T h).1
  = map (λ W, (Component W, Scalar W, Dist W)) ws.
Proof.
  rewrite ScaleWeights_fst. unfold BiasWeights.
  rewrite !map_map. by apply map_ext.
Qed.

(** *** One update *)

Lemma UpdateBlendWeights_nil w b target s h :
  BlendComponents s = [] →
  UpdateBlendWeights w b target s h
  = {| subsystem' :=
         {| BlendComponents := []; LastUpdateFrame := GFrameCounter w;
            BlendTarget := BlendTarget s; BlendWeights := [];
            LastValidBlendWeights := LastValidBlendWeights s |};
       store' := h; calls := []; returned := []; bValid := false |}.
Proof.
  intros Hnil. unfold UpdateBlendWeights.
  rewrite GatherWeights_eq, Hnil. reflexivity.
Qed.

Lemma UpdateBlendWeights_cons w b target s h :
  BlendComponents s ≠ [] →
  let g := GatherWeights w target b s in
  let r := ScaleWeights g.1.1 g.1.2 h in
  UpdateBlendWeights w b target s h
  = {| subsystem' :=
         {| BlendComponents := BlendComponents s;
            LastUpdateFrame := GFrameCounter w;
            BlendTarget := BlendTarget s; BlendWeights := r.1;
            LastValidBlendWeights := r.1 |};
       store' := r.2; calls := g.2; returned := r.1; bValid := true |}.
Proof.
  intros Hne g r. unfold UpdateBlendWeights.
  fold g. destruct g as [[ws T] cs] eqn:Hg. simpl in r.
  assert (Hlen : length ws = length (BlendComponents s)).
  { unfold g in Hg. rewrite GatherWeights_eq in Hg.
    injection Hg as <- _ _. by rewrite length_map. }
  assert (Hpos : (0 < length ws)%nat).
  { rewrite Hlen. destruct (BlendComponents s) eqn:E; [congruence | simpl; lia]. }
  unfold TArray.Num.
  destruct (Z.eqb_spec (Z.of_nat (length ws)) 0) as [E|_]; [lia|].
  pose proof (ScaleWeights_length ws T h) as Hl. fold r in Hl.
  fold r. destruct r as [ws' h']. simpl in *.
  assert ((0 <? Z.of_nat (length ws')) = true) as -> by (apply Z.ltb_lt; lia).
  reflexivity.
Qed.

Lemma UpdateBlendWeights_length w b target s h :
  length (returned (UpdateBlendWeights w b target s h))
  = length (BlendComponents s).
Proof.
  destruct (decide (BlendComponents s = [])) as [E|E].
  - rewrite UpdateBlendWeights_nil by done. by rewrite E.
  - pose proof (UpdateBlendWeights_cons w b target s h E) as ->.
    cbn [returned]. rewrite ScaleWeights_length, GatherWeights_eq.
    cbn [fst]. by rewrite length_map.
Qed.

Lemma UpdateBlendWeights_frame w b target s h :
  LastUpdateFrame (subsystem' (UpdateBlendWeights w b target s h))
  = GFrameCounter w
  ∧ BlendTarget (subsystem' (UpdateBlendWeights w b target s h))
    = BlendTarget s
  ∧ BlendComponents (subsystem' (UpdateBlendWeights w b target s h))
    = BlendComponents s.
Proof.
  destruct (decide (BlendComponents s = [])) as [E|E].
  - rewrite UpdateBlendWeights_nil by done. simpl. by rewrite E.
  - pose proof (UpdateBlendWeights_cons w b target s h E) as ->. done.
Qed.

(** What an update leaves in [BlendWeights]: one record per registered
    component, in registration order, with the scalar and the distance
    read during this call. *)
Lemma UpdateBlendWeights_records w b target s h :
  map (λ W, (Component W, Scalar W, Dist W))
      (returned (UpdateBlendWeights w b target s h))
  = map (λ c, (Some c, GetBlendScalar w c, DistanceTo w target b c))
        (BlendComponents s)
  ∧ calls (UpdateBlendWeights w b target s h)
    = flat_map (GatherOne_calls w target) (BlendComponents s).
Proof.
  destruct (decide (BlendComponents s = [])) as [E|E].
  - rewrite UpdateBlendWeights_nil by done. by rewrite E.
  - pose proof (UpdateBlendWeights_cons w b target s h E) as ->.
    cbn [returned calls]. rewrite ScaleWeights_fields.
    rewrite GatherWeights_eq. cbn [fst snd].
    by rewrite map_map.
Qed.

Lemma GatherOne_eq w target b c :
  GatherOne w target b c
  = {| Component := Some c; BlendWeight := fzero; DistanceBias := fone;
       Scalar := GetBlendScalar w c; Dist := DistanceTo w target b c |}.
Proof. reflexivity. Qed.

(** With a target that resolves and a frame not yet stamped, the call is
    the update. *)
Lemma GetBlendWeights_updates w b s h target :
  BlendTarget s = Some target → IsValidActor w target = true →
  ShouldUpdateDistance w s = true →
  GetBlendWeights w b s h = UpdateBlendWeights w b target s h.
Proof.
  intros Ht Hv Hupd. unfold GetBlendWeights. by rewrite Ht, Hv, Hupd.
Qed.

(** *** Every call's effect on the subsystem's members *)

Lemma GetBlendWeights_members w b s h :
  let o := GetBlendWeights w b s h in
  BlendTarget (subsystem' o) = BlendTarget s
  ∧ BlendComponents (subsystem' o) = BlendComponents s
  ∧ returned o = BlendWeights (subsystem' o).
Proof.
  unfold GetBlendWeights.
  destruct (BlendTarget s) as [a|] eqn:Ht; [|done].
  destruct (IsValidActor w a); [|done].
  destruct (ShouldUpdateDistance w s); [|done].
  destruct (UpdateBlendWeights_frame w b a s h) as (_ & -> & ->).
  repeat split; [done|].
  destruct (decide (BlendComponents s = [])) as [E|E].
  - by rewrite UpdateBlendWeights_nil.
  - by pose proof (UpdateBlendWeights_cons w b a s h E) as ->.
Qed.

(** The rule for [LastValidBlendWeights] over one call. *)
Lemma GetBlendWeights_LastValid w b s h :
  let o := GetBlendWeights w b s h in
  LastValidBlendWeights (subsystem' o)
  = if BlendTarget_IsValid w s && ShouldUpdateDistance w s
       && (0 <? TArray.Num (BlendWeights (subsystem' o)))
    then BlendWeights (subsystem' o)
    else LastValidBlendWeights s.
Proof.
  unfold GetBlendWeights, BlendTarget_IsValid.
  destruct (BlendTarget s) as [a|] eqn:Ht; [|done].
  destruct (IsValidActor w a); [|done].
  destruct (ShouldUpdateDistance w s); [|done].
  cbn [andb].
  destruct (decide (BlendComponents s = [])) as [E|E].
  - by rewrite UpdateBlendWeights_nil.
  - pose proof (UpdateBlendWeights_length w b a s h) as Hlen.
    pose proof (UpdateBlendWeights_cons w b a s h E) as Heq.
    cbn zeta in Heq. rewrite Heq in Hlen |- *.
    cbn [subsystem' BlendWeights LastValidBlendWeights returned] in *.
    unfold TArray.Num. rewrite Hlen.
    destruct (BlendComponents s); [done|].
    assert (Hpos : (0 <? Z.of_nat (length (c :: l))) = true)
      by (apply Z.ltb_lt; simpl; lia).
    by rewrite Hpos.
Qed.

Lemma step_LastValid_nonempty (st : UWorldDistanceBlendSubsystem * CompStore)
    (op : Op) :
  LastValidBlendWeights st.1 ≠ [] →
  LastValidBlendWeights (step st op).1 ≠ [].
Proof.
  destruct st as [s h]. intros Hne.
  destruct op as [c|c|t|w b|]; cbn [step fst]; try done.
  - unfold AssignBlendTarget. by case_decide.
  - pose proof (GetBlendWeights_LastValid w b s h) as Hlv.
    cbn zeta in Hlv. rewrite Hlv.
    destruct (BlendTarget_IsValid w s && ShouldUpdateDistance w s); [|done].
    cbn [andb]. unfold TArray.Num.
    destruct (BlendWeights _) as [|W ws]; [done|done].
Qed.

Lemma run_invariant (P : UWorldDistanceBlendSubsystem * CompStore → Prop) :
  (∀ st op, P st → P (step st op)) →
  ∀ ops st, P st → P (run ops st).
Proof.
  intros Hstep ops. unfold run.
  induction ops as [|op ops IH]; intros st Hst; [done|].
  simpl. apply IH, Hstep, Hst.
Qed.

(** *** The registry *)

Lemma AddUnique_NoDup (l : list Comp) c :
  NoDup l → NoDup (TArray.AddUnique l c).
Proof.
  intros Hl. unfold TArray.AddUnique, TArray.Add.
  case_decide; [done|].
  apply NoDup_app. repeat split; [done | | apply NoDup_singleton].
  intros x Hx ->%list_elem_of_singleton. done.
Qed.

Lemma Remove_NoDup (l : list Comp) c :
  NoDup l → NoDup (TArray.Remove l c).
Proof. intros Hl. unfold TArray.Remove. by apply NoDup_filter. Qed.

Lemma Remove_absent (l : list Comp) c :
  c ∉ l → TArray.Remove l c = l.
Proof.
  unfold TArray.Remove.
  induction l as [|x l IH]; intros Hc; [done|].
  apply not_elem_of_cons in Hc as [Hx Hl].
  rewrite filter_cons_True by done. by rewrite IH.
Qed.

Lemma step_registry_NoDup (st : UWorldDistanceBlendSubsystem * CompStore)
    (op : Op) :
  NoDup (BlendComponents st.1) → NoDup (BlendComponents (step st op).1).
Proof.
  destruct st as [s h]. intros Hnd.
  destruct op as [c|c|t|w b|]; cbn [step fst]; try done.
  - by apply AddUnique_NoDup.
  - by apply Remove_NoDup.
  - unfold AssignBlendTarget. by case_decide.
  - by destruct (GetBlendWeights_members w b s h) as (_ & -> & _).
Qed.

(** Filtering out a set of components that contains [c] does not see
    whether [c] was removed before. *)
Lemma filter_Remove (R : list Comp) (l : list Comp) c :
  c ∈ R →
  filter (λ x, x ∉ R) (TArray.Remove l c) = filter (λ x, x ∉ R) l.
Proof.
  intros Hc. unfold TArray.Remove.
  rewrite list_filter_filter. apply list_filter_iff.
  intros x. split; [tauto|]. intros Hx. split; [done|].
  by intros ->.
Qed.

Lemma filter_prefix (P : Comp → Prop) `{!∀ x, Decision (P x)}
    (l1 l2 : list Comp) :
  l1 `prefix_of` l2 → filter P l1 `prefix_of` filter P l2.
Proof. intros [k ->]. rewrite filter_app. by eexists. Qed.

Lemma filter_weaken (R R' : list Comp) (l : list Comp) :
  R' ⊆ R →
  filter (λ x, x ∉ R) (filter (λ x, x ∉ R') l) = filter (λ x, x ∉ R) l.
Proof.
  intros Hsub. rewrite list_filter_filter. apply list_filter_iff.
  intros x. split; [tauto|]. intros Hx. split; [done|].
  intros Hx'. by apply Hx, Hsub.
Qed.

Lemma step_survivors (R : list Comp) s h (op : Op) :
  unregistered [op] ⊆ R →
  filter (λ x, x ∉ R) (BlendComponents s)
    `prefix_of` filter (λ x, x ∉ R) (BlendComponents (step (s, h) op).1).
Proof.
  intros HR.
  destruct op as [c|c|t|w b|]; cbn [step fst]; try done.
  - cbn [RegisterBlendComponent BlendComponents].
    unfold TArray.AddUnique, TArray.Add. case_decide; [done|].
    rewrite filter_app. by apply prefix_app_r.
  - cbn [UnregisterBlendComponent BlendComponents].
    rewrite filter_Remove; [done|]. apply HR. simpl. apply list_elem_of_here.
  - unfold AssignBlendTarget. by case_decide.
  - by destruct (GetBlendWeights_members w b s h) as (_ & -> & _).
Qed.

Lemma run_survivors (ops : list Op) : ∀ s h,
  filter (λ x, x ∉ unregistered ops) (BlendComponents s)
    `prefix_of`
  filter (λ x, x ∉ unregistered ops) (BlendComponents (run ops (s, h)).1).
Proof.
  induction ops as [|op ops IH]; intros s h; [done|].
  change (run (op :: ops) (s, h)) with (run ops (step (s, h) op)).
  destruct (step (s, h) op) as [s1 h1] eqn:Hstep.
  assert (Hsub : unregistered ops ⊆ unregistered (op :: ops)).
  { intros x Hx. apply elem_of_app. by right. }
  etrans.
  - apply (step_survivors _ s h op).
    intros x Hx. apply elem_of_app. left.
    unfold unregistered in Hx. simpl in Hx. by rewrite app_nil_r in Hx.
  - rewrite Hstep. cbn [fst].
    rewrite <- (filter_weaken _ _ (BlendComponents s1) Hsub).
    rewrite <- (filter_weaken _ _ (BlendComponents (run ops (s1, h1)).1) Hsub).
    apply filter_prefix, IH.
Qed.

(** After a call, either the target did not resolve, or the frame is
    stamped and [bValid] tells whether [BlendWeights] is non-empty. *)
Lemma GetBlendWeights_stamped w b s h :
  let o := GetBlendWeights w b s h in
  (BlendTarget_IsValid w s = false ∧ bValid o = false)
  ∨ (BlendTarget_IsValid w s = true
     ∧ LastUpdateFrame (subsystem' o) = GFrameCounter w
     ∧ bValid o = (0 <? TArray.Num (BlendWeights (subsystem' o)))).
Proof.
  unfold GetBlendWeights, BlendTarget_IsValid.
  destruct (BlendTarget s) as [a|]; [|by left].
  destruct (IsValidActor w a); [|by left].
  right. split; [done|].
  destruct (ShouldUpdateDistance w s) eqn:Hupd.
  - destruct (decide (BlendComponents s = [])) as [E|E].
    + by rewrite UpdateBlendWeights_nil.
    + pose proof (UpdateBlendWeights_length w b a s h) as Hlen.
      pose proof (UpdateBlendWeights_cons w b a s h E) as Heq.
      cbn zeta in Heq. rewrite Heq in Hlen |- *.
      cbn [subsystem' BlendWeights returned bValid LastUpdateFrame] in *.
      split; [done|]. unfold TArray.Num. rewrite Hlen.
      destruct (BlendComponents s); [done|].
      symmetry. apply Z.ltb_lt. simpl. lia.
  - cbn [subsystem' bValid]. split; [|done].
    unfold ShouldUpdateDistance in Hupd.
    apply negb_false_iff, Z.eqb_eq in Hupd. done.
Qed.

Lemma GetBlendWeights_twice w b b' s h :
  let o := GetBlendWeights w b s h in
  GetBlendWeights w b' (subsystem' o) (store' o)
  = {| subsystem' := subsystem' o; store' := store' o; calls := [];
       returned := returned o; bValid := bValid o |}.
Proof.
  intros o.
  destruct (GetBlendWeights_members w b s h) as (Htg & _ & Hret).
  pose proof (GetBlendWeights_stamped w b s h) as Hst.
  cbn zeta in Hst. fold o in Htg, Hret, Hst.
  rewrite Hret. revert Hst. generalize (bValid o). intros v Hst.
  unfold BlendTarget_IsValid in Hst. rewrite <- Htg in Hst.
  unfold GetBlendWeights, ShouldUpdateDistance.
  destruct (BlendTarget (subsystem' o)) as [a|].
  - destruct Hst as [[Hv ->]|(Hv & Hf & ->)]; rewrite Hv; [done|].
    by rewrite Hf, Z.eqb_refl.
  - by destruct Hst as [[_ ->]|(? & _)].
Qed.

Lemma GetBlendWeights_again_fixed n w b (o : Outcome) :
  GetBlendWeights w b (subsystem' o) (store' o)
  = {| subsystem' := subsystem' o; store' := store' o; calls := [];
       returned := returned o; bValid := bValid o |} →
  GetBlendWeights_again n w b o = o.
Proof.
  intros Hfix. induction n as [|n IH]; [done|].
  cbn [GetBlendWeights_again]. rewrite Hfix.
  cbn [subsystem' store' calls returned bValid]. rewrite app_nil_r.
  destruct o. exact IH.
Qed.


(** ** The claims that do not depend on the arithmetic *)



(** C5.  When [LastUpdateFrame] equals [GFrameCounter], [GetBlendWeights]
    makes no engine call, leaves the subsystem and the components'
    storage as they are and returns the cached [BlendWeights].  Hence,
    from any state, however many calls follow a first one in the same
    frame, they add no engine call and change nothing: the outcome stays
    that of the first call. *)
Theorem GetBlendWeights_once_per_frame w b s h :
  LastUpdateFrame s = GFrameCounter w →
  GetBlendWeights w b s h
  = {| subsystem' := s; store' := h; calls := [];
       returned := BlendWeights s;
       bValid := BlendTarget_IsValid w s
                 && (0 <? TArray.Num (BlendWeights s)) |}
  ∧ ∀ s0 h0 n b',
      GetBlendWeights_again n w b' (GetBlendWeights w b s0 h0)
      = GetBlendWeights w b s0 h0.
Proof.
  intros Hstamp. split.
  - unfold GetBlendWeights, BlendTarget_IsValid, ShouldUpdateDistance.
    rewrite Hstamp, Z.eqb_refl. cbn [negb].
    destruct (BlendTarget s) as [a|]; [|done].
    by destruct (IsValidActor w a).
  - intros s0 h0 n b'. apply GetBlendWeights_again_fixed.
    apply GetBlendWeights_twice.
Qed.

(** C6.  Over one [GetBlendWeights], [LastValidBlendWeights] becomes the
    new [BlendWeights] exactly when the call recomputed (target valid,
    frame not yet stamped) and the result is non-empty, and is kept
    otherwise; no other member function writes it.  A recomputation with
    no registered component returns the empty array with [bValid = false]
    and [GetLastValidBlendWeights] answers as before. *)
Theorem LastValidBlendWeights_overwritten w b s h :
  let o := GetBlendWeights w b s h in
  let recomputed := BlendTarget_IsValid w s && ShouldUpdateDistance w s in
  LastValidBlendWeights (subsystem' o)
  = (if recomputed && (0 <? TArray.Num (BlendWeights (subsystem' o)))
     then BlendWeights (subsystem' o)
     else LastValidBlendWeights s)
  ∧ (recomputed = true → BlendComponents s = [] →
     returned o = [] ∧ bValid o = false
     ∧ BlendWeights (subsystem' o) = []
     ∧ LastValidBlendWeights (subsystem' o) = LastValidBlendWeights s
     ∧ GetLastValidBlendWeights (subsystem' o) = GetLastValidBlendWeights s)
  ∧ (∀ c, LastValidBlendWeights (RegisterBlendComponent c s)
          = LastValidBlendWeights s)
  ∧ (∀ c, LastValidBlendWeights (UnregisterBlendComponent c s)
          = LastValidBlendWeights s)
  ∧ (∀ t, LastValidBlendWeights (AssignBlendTarget t s)
          = LastValidBlendWeights s).
Proof.
  intros o recomputed.
  split; [apply GetBlendWeights_LastValid|].
  split; [|repeat split; try done;
           intros t; unfold AssignBlendTarget; by case_decide].
  unfold recomputed, BlendTarget_IsValid, o, GetBlendWeights.
  intros Hre Hnil.
  destruct (BlendTarget s) as [a|]; [|done].
  destruct (IsValidActor w a); [|done].
  destruct (ShouldUpdateDistance w s); [|done].
  by rewrite UpdateBlendWeights_nil.
Qed.

(** C9.  [RegisterBlendComponent] appends a component that is not yet
    registered and does nothing otherwise; [UnregisterBlendComponent]
    does nothing for an absent component and otherwise removes it,
    keeping the others in order.  So after any sequence of calls on a
    fresh subsystem the registry has no duplicates, and over any sequence
    of calls the components that are never unregistered keep their order,
    ahead of those registered later. *)
Theorem registry_unique_in_order :
  (∀ c s,
     BlendComponents (RegisterBlendComponent c s)
     = if decide (c ∈ BlendComponents s) then BlendComponents s
       else BlendComponents s ++ [c])
  ∧ (∀ c s, c ∉ BlendComponents s →
       BlendComponents (UnregisterBlendComponent c s) = BlendComponents s)
  ∧ (∀ c s,
       (c ∉ BlendComponents (UnregisterBlendComponent c s))
       ∧ (∀ x, x ≠ c →
            (x ∈ BlendComponents (UnregisterBlendComponent c s)
             ↔ x ∈ BlendComponents s))
       ∧ BlendComponents (UnregisterBlendComponent c s)
           `sublist_of` BlendComponents s)
  ∧ (∀ ops h, NoDup (BlendComponents (run ops (Subsystem_new, h)).1))
  ∧ (∀ ops s h,
       filter (λ x, x ∉ unregistered ops) (BlendComponents s)
         `prefix_of`
       filter (λ x, x ∉ unregistered ops)
              (BlendComponents (run ops (s, h)).1)).
Proof.
  split; [done|].
  split; [intros c s Hc; by apply Remove_absent|].
  split.
  { intros c s. cbn [UnregisterBlendComponent BlendComponents].
    unfold TArray.Remove. repeat split.
    - rewrite list_elem_of_filter. tauto.
    - rewrite list_elem_of_filter. tauto.
    - rewrite list_elem_of_filter. tauto.
    - apply sublist_filter. }
  split.
  - intros ops h.
    apply (run_invariant (λ st, NoDup (BlendComponents st.1))).
    + intros st op. apply step_registry_NoDup.
    + apply NoDup_nil_2.
  - intros ops s h. apply run_survivors.
Qed.

(** C10.  Once [LastValidBlendWeights] is non-empty it stays non-empty
    under every sequence of calls -- registering, unregistering,
    assigning a target (changed or not), [GetBlendWeights] in any world,
    [GetLastValidBlendWeights] -- and [GetLastValidBlendWeights] keeps
    reporting valid data. *)
Theorem LastValidBlendWeights_never_emptied ops s h :
  LastValidBlendWeights s ≠ [] →
  LastValidBlendWeights (run ops (s, h)).1 ≠ []
  ∧ (GetLastValidBlendWeights (run ops (s, h)).1).2 = true
  ∧ ∀ t, LastValidBlendWeights (AssignBlendTarget t s) ≠ [].
Proof.
  intros Hne.
  assert (Hrun : LastValidBlendWeights (run ops (s, h)).1 ≠ []).
  { apply (run_invariant (λ st, LastValidBlendWeights st.1 ≠ [])); [|done].
    intros st op. apply step_LastValid_nonempty. }
  split; [done|]. split.
  - unfold GetLastValidBlendWeights, TArray.Num. cbn [snd].
    destruct (LastValidBlendWeights (run ops (s, h)).1); [done|].
    apply Z.ltb_lt. simpl. lia.
  - intros t. unfold AssignBlendTarget. by case_decide.
Qed.

End SubsystemFacts.

(** * Properties in exact arithmetic *)

Module ExactFacts.
Import Exact.
Local Open Scope Q_scope.

Implicit Types (x y : XQ) (p q : Q) (W : FDistanceBlendWeight)
  (ws : list FDistanceBlendWeight).

Lemma positive_finite_Fin x :
  positive_finite x = true ↔ ∃ q, x = Fin q ∧ 0 < q.
Proof.
  unfold positive_finite. cbn [flt fzero fINFINITY XQ_FloatOps].
  destruct x as [q| | |]; cbn [xlt andb negb].
  - rewrite andb_true_r, negb_true_iff. split.
    + intros Hq. exists q. split; [done|].
      apply Qnot_le_lt. intros Hle. apply Qle_bool_iff in Hle. congruence.
    + intros (q' & [= <-] & Hq).
      destruct (Qle_bool q 0) eqn:E; [|done].
      apply Qle_bool_iff in E. lra.
  - split; [done|]. by intros (q & ? & _).
  - split; [done|]. by intros (q & ? & _).
  - split; [done|]. by intros (q & ? & _).
Qed.

Lemma Qzero_false q : ¬ q == 0 → Qzero q = false.
Proof.
  intros Hq. unfold Qzero. destruct (Qeq_bool q 0) eqn:E; [|done].
  apply Qeq_bool_iff in E. contradiction.
Qed.

Lemma xdiv_Fin p q : ¬ q == 0 → xdiv (Fin p) (Fin q) = Fin (Qred (p / q)).
Proof. intros Hq. cbn [xdiv]. by rewrite Qzero_false. Qed.

Lemma xlt_Fin p q : xlt (Fin p) (Fin q) = true ↔ p < q.
Proof.
  cbn [xlt]. rewrite negb_true_iff. split.
  - intros Hle. apply Qnot_le_lt. intros H. apply Qle_bool_iff in H. congruence.
  - intros Hlt. destruct (Qle_bool q p) eqn:E; [|done].
    apply Qle_bool_iff in E. lra.
Qed.

Lemma Qred_canonical p q : Qred p = p → p == q → p = Qred q.
Proof. intros Hp Hpq. rewrite <- Hp. by apply Qred_complete. Qed.

Lemma Qdiv_pos p q : 0 < p → 0 < q → 0 < p / q.
Proof.
  intros Hp Hq. unfold Qdiv.
  apply Qmult_lt_0_compat; [done|]. by apply Qinv_lt_0_compat.
Qed.


Lemma Qsum_nonneg (l : list Q) : Forall (λ q, 0 < q) l → 0 <= Qsum l.
Proof.
  induction 1 as [|q l Hq _ IH]; simpl; [apply Qle_refl|]. lra.
Qed.

Lemma Qsum_pos (l : list Q) : l ≠ [] → Forall (λ q, 0 < q) l → 0 < Qsum l.
Proof.
  intros Hne Hl. destruct Hl as [|q l Hq Hl]; [done|].
  simpl. pose proof (Qsum_nonneg l Hl). lra.
Qed.

Lemma Qsum_div (l : list Q) q :
  ¬ q == 0 → Qsum (map (λ p, p / q) l) == Qsum l / q.
Proof.
  intros Hq. induction l as [|p l IH]; simpl.
  - by field.
  - rewrite IH. by field.
Qed.

(** A left-to-right sum of positive finite numbers is finite, is the
    sum of the numbers, and is in lowest terms. *)
Lemma fold_xadd_Fin {A} (g : A → XQ) (l : list A) :
  Forall (λ a, ∃ q, g a = Fin q ∧ 0 < q) l →
  ∀ S0, ∃ z,
    fold_left (λ acc a, xadd acc (g a)) l (Fin S0) = Fin z
    ∧ z == S0 + Qsum (map (λ a, val (g a)) l)
    ∧ (l ≠ [] → Qred z = z).
Proof.
  induction 1 as [|a l (q & Hq & Hpos) _ IH]; intros S0.
  - exists S0. simpl. split; [done|]. split; [lra|done].
  - destruct (IH (Qred (S0 + q))) as (z & Hz & Hval & Hcan).
    exists z. cbn [fold_left map Qsum fold_right]. rewrite Hq.
    cbn [xadd val]. split; [done|]. split.
    + rewrite Hval, Qred_correct. unfold Qsum. lra.
    + intros _. destruct l as [|a' l]; [|by apply Hcan].
      simpl in Hz. injection Hz as <-. apply Qred_complete, Qred_correct.
Qed.

Lemma vals_pos ws :
  Forall pos_weight ws →
  Forall (λ q, 0 < q) (map (λ W, val (BlendWeight W)) ws).
Proof.
  induction 1 as [|W ws (q & Hq & Hpos) _ IH]; constructor; [|done].
  by rewrite Hq.
Qed.

Lemma SumBlendWeights_Fin ws :
  Forall pos_weight ws →
  ∃ z, SumBlendWeights ws = Fin z
       ∧ z == Qsum (map (λ W, val (BlendWeight W)) ws)
       ∧ (ws ≠ [] → Qred z = z ∧ 0 < z).
Proof.
  intros Hws.
  destruct (fold_xadd_Fin (λ W, BlendWeight W : XQ) ws Hws 0)
    as (z & Hz & Hval & Hcan).
  exists z. split; [exact Hz|]. split; [lra|].
  intros Hne. split; [by apply Hcan|].
  pose proof (Qsum_pos _ (λ E, Hne (map_eq_nil _ _ E)) (vals_pos ws Hws)).
  lra.
Qed.

(** The lowest of positive finite weights, starting from a finite
    bound. *)
Lemma fold_LowestStep_Fin ws :
  Forall pos_weight ws →
  ∀ m0, 0 < m0 →
  ∃ m, fold_left LowestStep ws (Fin m0) = Fin m
       ∧ 0 < m ∧ m <= m0
       ∧ Forall (λ W, m <= val (BlendWeight W)) ws.
Proof.
  induction 1 as [|W ws (q & Hq & Hpos) _ IH]; intros m0 Hm0.
  - exists m0. simpl. repeat split; [done|lra|constructor].
  - cbn [fold_left]. unfold LowestStep at 2. rewrite Hq.
    cbn [flt XQ_FloatOps].
    destruct (xlt (Fin q) (Fin m0)) eqn:Hlt.
    + apply xlt_Fin in Hlt.
      destruct (IH q Hpos) as (m & Hm & Hmpos & Hle & Hall).
      exists m. repeat split; [done|done|lra|].
      constructor; [by rewrite Hq|done].
    + assert (m0 <= q) as Hle0.
      { apply Qnot_lt_le. intros Hlt'. apply xlt_Fin in Hlt'. congruence. }
      destruct (IH m0 Hm0) as (m & Hm & Hmpos & Hle & Hall).
      exists m. repeat split; [done|done|done|].
      constructor; [rewrite Hq; simpl; lra|done].
Qed.

Lemma LowestWeight_Fin ws :
  ws ≠ [] → Forall pos_weight ws →
  ∃ m, LowestWeight ws = Fin m ∧ 0 < m
       ∧ Forall (λ W, m <= val (BlendWeight W)) ws.
Proof.
  intros Hne Hws. destruct Hws as [|W ws (q & Hq & Hpos) Hws]; [done|].
  unfold LowestWeight. cbn [fold_left]. unfold LowestStep at 2.
  rewrite Hq. cbn [flt fINFINITY XQ_FloatOps xlt].
  destruct (fold_LowestStep_Fin ws Hws q Hpos) as (m & Hm & Hmpos & Hle & Hall).
  exists m. repeat split; [done|done|].
  constructor; [by rewrite Hq|done].
Qed.

Lemma DivideOne_Fin W q m :
  BlendWeight W = Fin q → 0 < q → 0 < m →
  BlendWeight (DivideOne (Fin m) W) = Fin (Qred (q / m))
  ∧ pos_weight (DivideOne (Fin m) W).
Proof.
  intros Hq Hpos Hm. unfold DivideOne. cbn [with_BlendWeight BlendWeight].
  rewrite Hq. cbn [fdiv XQ_FloatOps]. rewrite xdiv_Fin by lra.
  split; [done|]. eexists. split; [done|].
  rewrite Qred_correct. by apply Qdiv_pos.
Qed.

Lemma DivideOne_pos ws m :
  0 < m → Forall pos_weight ws →
  Forall pos_weight (map (DivideOne (Fin m)) ws).
Proof.
  intros Hm. induction 1 as [|W ws (q & Hq & Hpos) _ IH]; constructor; [|done].
  by destruct (DivideOne_Fin W q m Hq Hpos Hm).
Qed.

(** Dividing positive weights by their sum makes them sum to one. *)
Lemma normalised_sum ws :
  ws ≠ [] → Forall pos_weight ws →
  SumBlendWeights (map (DivideOne (SumBlendWeights ws)) ws) = Fin 1.
Proof.
  intros Hne Hws.
  destruct (SumBlendWeights_Fin ws Hws) as (S & -> & HS & Hcan).
  destruct (Hcan Hne) as [_ HSpos].
  pose proof (DivideOne_pos ws S HSpos Hws) as Hdiv.
  destruct (SumBlendWeights_Fin _ Hdiv) as (z & -> & Hz & Hcan').
  destruct Hcan' as [Hred _].
  { intros E. by apply map_eq_nil in E. }
  f_equal. change 1 with (Qred 1). apply Qred_canonical; [done|].
  rewrite Hz, map_map.
  assert (Hmap : Qsum (map (λ W, val (BlendWeight (DivideOne (Fin S) W))) ws)
                 == Qsum (map (λ p, p / S)
                              (map (λ W, val (BlendWeight W)) ws))).
  { rewrite map_map. clear -Hws HSpos.
    induction Hws as [|W ws (q & Hq & Hpos) _ IH];
      cbn [map Qsum fold_right]; [done|].
    destruct (DivideOne_Fin W q S Hq Hpos HSpos) as [-> _].
    unfold Qsum in IH. rewrite Hq, IH. cbn [val]. by rewrite Qred_correct. }
  rewrite Hmap, Qsum_div, <- HS by lra. field. lra.
Qed.

Lemma BiasOne_Fin avg W d sc :
  0 < avg → Dist W = Fin d → Scalar W = Fin sc → 0 < d → 0 < sc →
  BlendWeight (BiasOne (Fin avg) W) = Fin (Qred (Qred (avg / d) * sc))
  ∧ DistanceBias (BiasOne (Fin avg) W) = Fin (Qred (avg / d))
  ∧ 0 < Qred (Qred (avg / d) * sc).
Proof.
  intros Havg Hd Hsc Hdpos Hscpos. unfold BiasOne.
  cbn [with_BlendWeight with_DistanceBias BlendWeight DistanceBias Scalar].
  rewrite Hd, Hsc. cbn [fdiv fmul XQ_FloatOps].
  rewrite xdiv_Fin by lra. cbn [xmul]. split; [done|]. split; [done|].
  rewrite Qred_correct.
  apply Qmult_lt_0_compat; [|done]. rewrite Qred_correct. by apply Qdiv_pos.
Qed.

Lemma BiasOne_pos avg ws :
  0 < avg → Forall pos_record ws →
  Forall pos_weight (map (BiasOne (Fin avg)) ws).
Proof.
  intros Havg.
  induction 1 as [|W ws (d & sc & Hd & Hsc & Hdpos & Hscpos) _ IH];
    constructor; [|done].
  destruct (BiasOne_Fin avg W d sc) as (Hq & _ & Hpos); try done.
  by eexists.
Qed.

Lemma inject_nat_pos (n : nat) : (0 < n)%nat → 0 < inject_Z (Z.of_nat n).
Proof. intros Hn. unfold Qlt. simpl. lia. Qed.

(** Lines 150-188 on positive finite data: the weights sum to one, and
    each is the same positive factor times scalar over distance. *)
Lemma ScaleWeights_exact ws t h :
  ws ≠ [] → 0 < t → Forall pos_record ws →
  SumBlendWeights (ScaleWeights ws (Fin t) h).1 = Fin 1
  ∧ ∃ k, 0 < k ∧ Forall (scaled_record k) (ScaleWeights ws (Fin t) h).1.
Proof.
  intros Hne Ht Hws.
  rewrite ScaleWeights_fst, DivideWeights_snd.
  unfold BiasWeights, AverageDistances. cbn [fdiv fof_int32 XQ_FloatOps].
  assert (Hn : 0 < inject_Z (TArray.Num ws)).
  { apply inject_nat_pos. destruct ws; [done|simpl; lia]. }
  rewrite xdiv_Fin by lra.
  set (avg := Qred (t / inject_Z (TArray.Num ws))).
  assert (Havg : 0 < avg).
  { unfold avg. rewrite Qred_correct. by apply Qdiv_pos. }
  pose proof (BiasOne_pos avg ws Havg Hws) as Hbias.
  assert (Hne' : map (BiasOne (Fin avg : F)) ws ≠ []).
  { intros E. by apply map_eq_nil in E. }
  destruct (LowestWeight_Fin _ Hne' Hbias) as (m & -> & Hm & _).
  pose proof (DivideOne_pos _ m Hm Hbias) as Hdiv.
  split.
  { apply normalised_sum; [|done].
    intros E. by do 2 apply map_eq_nil in E. }
  destruct (SumBlendWeights_Fin _ Hdiv) as (S & -> & _ & HS).
  destruct HS as [_ HS].
  { intros E. by do 2 apply map_eq_nil in E. }
  exists (avg / (m * S)). split.
  { apply Qdiv_pos; [done|]. by apply Qmult_lt_0_compat. }
  clearbody avg. clear -Hws Havg Hm HS.
  induction Hws as [|W ws (d & sc & Hd & Hsc & Hdpos & Hscpos) _ IH];
    cbn [map]; [constructor|].
  constructor; [|done].
  destruct (BiasOne_Fin avg W d sc) as (Hq & _ & Hpos); try done.
  destruct (DivideOne_Fin _ _ m Hq Hpos Hm) as [Hq' (q' & Hq'' & Hpos')].
  destruct (DivideOne_Fin _ _ S Hq'' Hpos' HS) as [Hq3 _].
  exists d, sc, (Qred (q' / S)). repeat split; try done.
  rewrite Hq' in Hq''. injection Hq'' as <-.
  rewrite !Qred_correct. field. lra.
Qed.

Lemma all_positive_records (w : World) target b
    (s : UWorldDistanceBlendSubsystem) :
  all_positive w target b s = true →
  Forall pos_record (map (GatherOne w target b) (BlendComponents s)).
Proof.
  unfold all_positive.
  induction (BlendComponents s) as [|c comps IH]; cbn [forallb map];
    [constructor|].
  intros [[Hd Hsc]%andb_true_iff Hrest]%andb_true_iff.
  constructor; [|by apply IH].
  apply positive_finite_Fin in Hd as (d & Hd & Hdpos).
  apply positive_finite_Fin in Hsc as (sc & Hsc & Hscpos).
  exists d, sc. rewrite GatherOne_eq. cbn [Dist Scalar]. done.
Qed.

(** The distances of positive finite records add up to a positive
    number. *)
Lemma total_distance_pos (w : World) target b (comps : list Comp) :
  comps ≠ [] →
  Forall pos_record (map (GatherOne w target b) comps) →
  ∃ t, fold_left (λ acc c, fadd acc (DistanceTo w target b c)) comps fzero
       = Fin t ∧ 0 < t.
Proof.
  intros Hne Hrec.
  assert (Hd : Forall (λ c, ∃ q, DistanceTo w target b c = Fin q ∧ 0 < q)
                      comps).
  { clear Hne. induction comps as [|c comps IH]; [constructor|].
    inversion Hrec as [|? ? (d & sc & Hd & _ & Hdpos & _) Hrest]; subst.
    constructor; [by exists d | by apply IH]. }
  destruct (fold_xadd_Fin (λ c, DistanceTo w target b c : XQ) comps Hd 0)
    as (t & Ht & Hval & _).
  exists t. split; [exact Ht|].
  assert (Hpos : Forall (λ q, 0 < q)
                   (map (λ c, val (DistanceTo w target b c)) comps)).
  { clear -Hd. induction Hd as [|c comps (q & Hq & Hpos) _ IH];
      constructor; [by rewrite Hq | done]. }
  pose proof (Qsum_pos _ (λ E, Hne (map_eq_nil _ _ E)) Hpos). lra.
Qed.

(** One update on positive finite data. *)
Lemma UpdateBlendWeights_exact (w : World) b target
    (s : UWorldDistanceBlendSubsystem) h :
  BlendComponents s ≠ [] → all_positive w target b s = true →
  let o := UpdateBlendWeights w b target s h in
  bValid o = true
  ∧ SumBlendWeights (returned o) = Fin 1
  ∧ ∃ k, 0 < k ∧ Forall (scaled_record k) (returned o).
Proof.
  intros Hne Hpos o. unfold o.
  pose proof (UpdateBlendWeights_cons w b target s h Hne) as Heq.
  cbn zeta in Heq. rewrite Heq. cbn [bValid returned]. split; [done|].
  rewrite GatherWeights_eq. cbn [fst snd].
  pose proof (all_positive_records w target b s Hpos) as Hrec.
  destruct (total_distance_pos w target b _ Hne Hrec) as (t & -> & Ht).
  apply ScaleWeights_exact; [|done|done].
  intros E. by apply map_eq_nil in E.
Qed.


(** At any instant: if the cached arrays start empty or summing to 1, and
    every evaluation along the way sees positive finite data, then
    [BlendWeights] and [LastValidBlendWeights] are each empty or sum to 1
    after every sequence of calls. *)
Lemma cached_weights_sum_to_one ops : ∀ st,
  positive_calls ops st →
  sums_to_one (BlendWeights st.1) →
  sums_to_one (LastValidBlendWeights st.1) →
  sums_to_one (BlendWeights (run ops st).1)
  ∧ sums_to_one (LastValidBlendWeights (run ops st).1).
Proof.
  induction ops as [|op ops IH]; intros [s h] Hpos Hcur Hlast; [done|].
  destruct Hpos as [Hop Hpos].
  change (run (op :: ops) (s, h)) with (run ops (step (s, h) op)).
  apply IH; [done| |]; clear IH Hpos; cbn [fst] in *.
  - destruct op as [c|c|t|w b|]; cbn [step fst]; try done.
    + unfold AssignBlendTarget. case_decide; [by left|done].
    + unfold GetBlendWeights.
      destruct (BlendTarget s) as [a|] eqn:Ht; [|done].
      destruct (IsValidActor w a) eqn:Hv; [|done].
      destruct (ShouldUpdateDistance w s); [|done].
      destruct (decide (BlendComponents s = [])) as [E|E].
      * rewrite UpdateBlendWeights_nil by done. by left.
      * destruct (UpdateBlendWeights_exact w b a s h E (Hop a eq_refl Hv))
          as (_ & Hsum & _).
        pose proof (UpdateBlendWeights_cons w b a s h E) as Heq.
        cbn zeta in Heq. rewrite Heq in Hsum |- *.
        right. exact Hsum.
  - destruct op as [c|c|t|w b|]; cbn [step fst]; try done.
    + unfold AssignBlendTarget. by case_decide.
    + unfold GetBlendWeights.
      destruct (BlendTarget s) as [a|] eqn:Ht; [|done].
      destruct (IsValidActor w a) eqn:Hv; [|done].
      destruct (ShouldUpdateDistance w s); [|done].
      destruct (decide (BlendComponents s = [])) as [E|E].
      * by rewrite UpdateBlendWeights_nil.
      * destruct (UpdateBlendWeights_exact w b a s h E (Hop a eq_refl Hv))
          as (_ & Hsum & _).
        pose proof (UpdateBlendWeights_cons w b a s h E) as Heq.
        cbn zeta in Heq. rewrite Heq in Hsum |- *.
        right. exact Hsum.
Qed.

(** ** The claims about the numbers *)





(** ** Worked counterexamples *)



(** ** The theorems at work on concrete worlds *)



Lemma GetBlendWeights_once_per_frame_witness :
  LastUpdateFrame evaluated_3 = GFrameCounter world_10_20_30
  ∧ calls (GetBlendWeights world_10_20_30 true evaluated_3 ∅) = []
  ∧ subsystem' (GetBlendWeights world_10_20_30 true evaluated_3 ∅)
    = evaluated_3.
Proof.
  split; [reflexivity|].
  destruct (GetBlendWeights_once_per_frame
              world_10_20_30 true evaluated_3 ∅ eq_refl) as [-> _].
  split; reflexivity.
Defined.

Lemma LastValidBlendWeights_never_emptied_witness :
  let ops := [ OpAssignBlendTarget None; OpUnregister 1%positive;
               OpUnregister 2%positive; OpUnregister 3%positive;
               OpAssignBlendTarget (Some 2%positive);
               OpGetBlendWeights world_target_destroyed true;
               OpGetLastValidBlendWeights ] in
  LastValidBlendWeights evaluated_3 ≠ []
  ∧ BlendWeights (run ops (evaluated_3, ∅)).1 = []
  ∧ LastValidBlendWeights (run ops (evaluated_3, ∅)).1 ≠ [].
Proof.
  intros ops.
  assert (Hne : LastValidBlendWeights evaluated_3 ≠ []) by discriminate.
  split; [exact Hne|]. split; [reflexivity|].
  exact (proj1 (LastValidBlendWeights_never_emptied ops evaluated_3 ∅ Hne)).
Defined.

Lemma LastValidBlendWeights_overwritten_witness :
  let s := (run [OpUnregister 1%positive; OpUnregister 2%positive;
                 OpUnregister 3%positive] (evaluated_3, ∅)).1 in
  let o := GetBlendWeights world_next_frame true s ∅ in
  BlendComponents s = []
  ∧ returned o = [] ∧ bValid o = false
  ∧ LastValidBlendWeights (subsystem' o) = BlendWeights evaluated_3
  ∧ length (GetLastValidBlendWeights (subsystem' o)).1 = 3%nat
  ∧ (GetLastValidBlendWeights (subsystem' o)).2 = true.
Proof.
  intros s o.
  destruct (LastValidBlendWeights_overwritten world_next_frame true s ∅)
    as (_ & Hempty & _).
  destruct (Hempty eq_refl eq_refl) as (Hret & Hvalid & _ & Hlast & Hget).
  split; [reflexivity|]. split; [exact Hret|]. split; [exact Hvalid|].
  unfold o. rewrite Hget, Hlast. repeat split; reflexivity.
Defined.

Lemma registry_unique_in_order_witness :
  let ops := [ OpRegister 1%positive; OpRegister 2%positive;
               OpRegister 1%positive; OpRegister 3%positive;
               OpUnregister 2%positive; OpUnregister 5%positive;
               OpRegister 2%positive ] in
  BlendComponents (run ops (Subsystem_new, ∅)).1
  = [1%positive; 3%positive; 2%positive]
  ∧ NoDup (BlendComponents (run ops (Subsystem_new, ∅)).1).
Proof.
  intros ops. split; [reflexivity|].
  destruct registry_unique_in_order as (_ & _ & _ & Hnodup & _).
  apply Hnodup.
Defined.





End ExactFacts.

(** * The worked examples in binary32

    The two examples above, run in the arithmetic the source is compiled
    to.  The negative weight is there bit for bit; the weights of the
    10-20-30 example are within 2^-25 of 6/11, 3/11 and 2/11 and their
    float sum is exactly 1. *)

Module Binary32Facts.
Import Binary32.

Example binary32_negative_weight :
  let o := GetBlendWeights b32_world_negative_scalar true registered_2 ∅ in
  map BlendWeight (returned o) = [of_Z (-1); of_Z 2]
  ∧ flt (of_Z (-1)) fzero = true
  ∧ bValid o = true.
Proof. vm_compute. repeat split; reflexivity. Qed.

Example binary32_10_20_30 :
  let o := GetBlendWeights b32_world_10_20_30 true registered_3 ∅ in
  map Dist (returned o) = [of_Z 10; of_Z 20; of_Z 30]
  ∧ map BlendWeight (returned o)
    = [ S754_finite false 9151209 (-24); S754_finite false 9151209 (-25);
        S754_finite false 12201612 (-26) ]
  ∧ Forall2 (λ x exact, (Qabs (to_Q x - exact) <= 1 # 2 ^ 25)%Q)
            (map BlendWeight (returned o)) [6 # 11; 3 # 11; 2 # 11]%Q
  ∧ SumBlendWeights (returned o) = of_Z 1.
Proof.
  cbn zeta. split; [vm_compute; reflexivity|].
  split; [vm_compute; reflexivity|].
  split; [|vm_compute; reflexivity].
  assert (Hw : map BlendWeight
                 (returned (GetBlendWeights b32_world_10_20_30 true
                              registered_3 ∅))
               = [ S754_finite false 9151209 (-24);
                   S754_finite false 9151209 (-25);
                   S754_finite false 12201612 (-26) ])
    by (vm_compute; reflexivity).
  rewrite Hw. repeat constructor; vm_compute; discriminate.
Qed.

(** Rounding shows elsewhere: with distances 7, 11 and 13 the float sum of
    the final weights is one unit in the last place below 1. *)
Example binary32_7_11_13 :
  let o := GetBlendWeights b32_world_7_11_13 true registered_3 ∅ in
  map Dist (returned o) = [of_Z 7; of_Z 11; of_Z 13]
  ∧ SumBlendWeights (returned o) = S754_finite false 16777214 (-24)
  ∧ (to_Q (SumBlendWeights (returned o)) == 1 - (1 # 2 ^ 23))%Q.
Proof. cbn zeta. repeat split; vm_compute; reflexivity. Qed.

End Binary32Facts.


(** * Further properties of the code, whatever the arithmetic *)

Section SubsystemMore.
Context `{EN : Engine}.

Implicit Types (s : UWorldDistanceBlendSubsystem) (h : CompStore)
  (w : World) (W : FDistanceBlendWeight) (ws : list FDistanceBlendWeight)
  (c : Comp) (comps : list Comp) (t : option Actor) (b : bool).

Lemma elem_of_map {A B} (f : A → B) (l : list A) (y : B) :
  y ∈ map f l ↔ ∃ x, y = f x ∧ x ∈ l.
Proof.
  rewrite list_elem_of_In, in_map_iff. split.
  - intros (x & <- & Hx). exists x. by rewrite list_elem_of_In.
  - intros (x & -> & Hx). exists x. by rewrite <- list_elem_of_In.
Qed.

Lemma NoDup_map_eq {A B} (f : A → B) (l : list A) x y :
  NoDup (map f l) → x ∈ l → y ∈ l → f x = f y → x = y.
Proof.
  induction l as [|a l IH]; cbn [map]; intros Hnd Hx Hy Hf.
  - by apply elem_of_nil in Hx.
  - apply NoDup_cons in Hnd as [Ha Hnd].
    apply elem_of_cons in Hx as [->|Hx]; apply elem_of_cons in Hy as [->|Hy].
    + done.
    + exfalso. apply Ha. rewrite Hf. apply elem_of_map. by exists y.
    + exfalso. apply Ha. rewrite <- Hf. apply elem_of_map. by exists x.
    + by apply IH.
Qed.

(** The components named by the records of an update are the registry. *)
Lemma UpdateBlendWeights_components w b target s h :
  map Component (returned (UpdateBlendWeights w b target s h))
  = map Some (BlendComponents s).
Proof.
  destruct (UpdateBlendWeights_records w b target s h) as [Hrec _].
  apply (f_equal (map (λ p : option Comp * F * F, p.1.1))) in Hrec.
  by rewrite !map_map in Hrec.
Qed.

(** *** The components' own storage *)

Lemma fold_ScaleStep_store_other Sum ws out h c :
  (∀ W, W ∈ ws → Component W ≠ Some c) →
  (fold_left (ScaleStep Sum) ws (out, h)).2 !! c = h !! c.
Proof.
  revert out h. induction ws as [|W ws IH]; intros out h Hno; [done|].
  cbn [fold_left]. unfold ScaleStep at 2.
  rewrite IH.
  - cbn [DivideOne with_BlendWeight Component].
    destruct (Component W) as [c'|] eqn:Hc; [|done].
    unfold CompStore in *. rewrite lookup_insert_ne; [done|].
    intros ->. apply (Hno W); [apply list_elem_of_here | done].
  - intros W' HW'. apply Hno. by apply list_elem_of_further.
Qed.

Lemma fold_ScaleStep_store_written Sum ws out h c :
  (∃ W, W ∈ ws ∧ Component W = Some c) →
  ∃ W, (fold_left (ScaleStep Sum) ws (out, h)).2 !! c
       = Some (DivideOne Sum W)
       ∧ W ∈ ws ∧ Component W = Some c.
Proof.
  revert out h. induction ws as [|W ws IH]; intros out h (W0 & HW0 & Hc0).
  - by apply elem_of_nil in HW0.
  - cbn [fold_left]. unfold ScaleStep at 2.
    destruct (decide (Exists (λ W', Component W' = Some c) ws))
      as [Hlater|Hno]; rewrite Exists_exists in Hlater || rewrite Exists_exists in Hno.
    + destruct (IH (out ++ [DivideOne Sum W])
                  (match Component (DivideOne Sum W) with
                   | Some c' => <[c' := DivideOne Sum W]> h
                   | None => h
                   end) Hlater) as (W1 & Hl & HW1 & Hc1).
      exists W1. split; [exact Hl|]. split; [by apply list_elem_of_further|done].
    + assert (W0 = W) as ->.
      { apply elem_of_cons in HW0 as [->|HW0]; [done|].
        exfalso. apply Hno. by exists W0. }
      exists W. rewrite fold_ScaleStep_store_other.
      * cbn [DivideOne with_BlendWeight Component]. rewrite Hc0.
        unfold CompStore in *. rewrite lookup_insert_eq.
        split; [done|]. split; [apply list_elem_of_here | done].
      * intros W' HW' Hc'. apply Hno. by exists W'.
Qed.

Lemma UpdateBlendWeights_store w b target s h c :
  let o := UpdateBlendWeights w b target s h in
  (c ∉ BlendComponents s → store' o !! c = h !! c)
  ∧ (c ∈ BlendComponents s →
     ∃ W, store' o !! c = Some W ∧ W ∈ returned o ∧ Component W = Some c).
Proof.
  cbn zeta. destruct (decide (BlendComponents s = [])) as [E|E].
  { rewrite UpdateBlendWeights_nil by done. rewrite E. split; [done|].
    intros Hc. by apply elem_of_nil in Hc. }
  pose proof (UpdateBlendWeights_cons w b target s h E) as Heq.
  cbn zeta in Heq. rewrite Heq. cbn [store' returned]. clear Heq.
  rewrite GatherWeights_eq. cbn [fst snd].
  set (ws := map (GatherOne w target b) (BlendComponents s)).
  set (T := fold_left _ _ _).
  assert (Hcomp : ∀ W, W ∈ map (DivideOne (LowestWeight (BiasWeights ws T)))
                                (BiasWeights ws T) →
                       ∃ c0, c0 ∈ BlendComponents s ∧ Component W = Some c0).
  { intros W (W1 & -> & HW1)%elem_of_map. unfold BiasWeights in HW1.
    apply elem_of_map in HW1 as (W0 & -> & HW0).
    apply elem_of_map in HW0 as (c0 & -> & Hc0). by exists c0. }
  unfold ScaleWeights. rewrite DivideWeights_eq.
  set (Sum := fold_left _ (BiasWeights ws T) fzero).
  split.
  - intros Hc. apply fold_ScaleStep_store_other.
    intros W HW Hc'. destruct (Hcomp W HW) as (c0 & Hc0 & HW0).
    rewrite HW0 in Hc'. by injection Hc' as ->.
  - intros Hc.
    destruct (fold_ScaleStep_store_written Sum
                (map (DivideOne (LowestWeight (BiasWeights ws T)))
                     (BiasWeights ws T)) [] h c)
      as (W & Hl & HW & HcW).
    { exists (DivideOne (LowestWeight (BiasWeights ws T))
                (BiasOne (AverageDistances ws T) (GatherOne w target b c))).
      split; [|done]. apply elem_of_map. eexists. split; [done|].
      unfold BiasWeights. apply elem_of_map. eexists. split; [done|].
      apply elem_of_map. by exists c. }
    exists (DivideOne Sum W). split; [exact Hl|]. split; [|done].
    rewrite fold_ScaleStep_fst. cbn [app]. apply elem_of_map. by exists W.
Qed.

Lemma fold_fadd_ext {A} (f g : A → F) (l : list A) (S0 : F) :
  (∀ x, x ∈ l → f x = g x) →
  fold_left (λ acc x, fadd acc (f x)) l S0
  = fold_left (λ acc x, fadd acc (g x)) l S0.
Proof.
  revert S0. induction l as [|x l IH]; intros S0 Hfg; [done|].
  cbn [fold_left]. rewrite (Hfg x) by apply list_elem_of_here.
  apply IH. intros y Hy. apply Hfg. by apply list_elem_of_further.
Qed.

(** The array an update returns is a function of the registry and of the
    scalar and distance of each registered component. *)
Lemma UpdateBlendWeights_returned_ext w1 w2 b1 b2 (a1 a2 : Actor) s1 s2 h1 h2 :
  BlendComponents s1 = BlendComponents s2 →
  (∀ c, c ∈ BlendComponents s1 →
        GetBlendScalar w1 c = GetBlendScalar w2 c
        ∧ DistanceTo w1 a1 b1 c = DistanceTo w2 a2 b2 c) →
  returned (UpdateBlendWeights w1 b1 a1 s1 h1)
  = returned (UpdateBlendWeights w2 b2 a2 s2 h2).
Proof.
  intros Hreg Hsame.
  destruct (decide (BlendComponents s1 = [])) as [E|E].
  { rewrite !UpdateBlendWeights_nil; [done|by rewrite <- Hreg|done]. }
  assert (E2 : BlendComponents s2 ≠ []) by by rewrite <- Hreg.
  pose proof (UpdateBlendWeights_cons w1 b1 a1 s1 h1 E) as Heq1.
  pose proof (UpdateBlendWeights_cons w2 b2 a2 s2 h2 E2) as Heq2.
  cbn zeta in Heq1, Heq2. rewrite Heq1, Heq2. cbn [returned].
  rewrite !ScaleWeights_fst, !GatherWeights_eq. cbn [fst snd].
  rewrite <- Hreg.
  assert (Hws : map (GatherOne w1 a1 b1) (BlendComponents s1)
                = map (GatherOne w2 a2 b2) (BlendComponents s1)).
  { apply map_ext_in. intros c Hc%list_elem_of_In.
    destruct (Hsame c Hc) as [Hs Hd]. by rewrite !GatherOne_eq, Hs, Hd. }
  assert (HT : fold_left (λ acc c, fadd acc (DistanceTo w1 a1 b1 c))
                         (BlendComponents s1) fzero
               = fold_left (λ acc c, fadd acc (DistanceTo w2 a2 b2 c))
                           (BlendComponents s1) fzero).
  { apply fold_fadd_ext. intros c Hc. by destruct (Hsame c Hc). }
  by rewrite Hws, HT.
Qed.

Lemma GetBlendWeights_cache_is_last_valid w b s h :
  cache_is_last_valid s →
  cache_is_last_valid (subsystem' (GetBlendWeights w b s h)).
Proof.
  intros Hinv. unfold GetBlendWeights.
  destruct (BlendTarget s) as [a|]; [|done].
  destruct (IsValidActor w a); [|done].
  destruct (ShouldUpdateDistance w s); [|done].
  destruct (decide (BlendComponents s = [])) as [E|E].
  - rewrite UpdateBlendWeights_nil by done. by left.
  - pose proof (UpdateBlendWeights_cons w b a s h E) as Heq.
    cbn zeta in Heq. rewrite Heq. by right.
Qed.




(** ** Further theorems *)

(** X1.  Whatever the state, [bValid] comes back true exactly when the
    target resolves and the returned array is not empty. *)
Theorem bValid_iff_target_and_data w b s h :
  let o := GetBlendWeights w b s h in
  bValid o = BlendTarget_IsValid w s && (0 <? TArray.Num (returned o)).
Proof.
  unfold GetBlendWeights, BlendTarget_IsValid.
  destruct (BlendTarget s) as [a|]; [|done].
  destruct (IsValidActor w a); [|done].
  destruct (ShouldUpdateDistance w s); [|done].
  destruct (decide (BlendComponents s = [])) as [E|E].
  - by rewrite UpdateBlendWeights_nil.
  - pose proof (UpdateBlendWeights_length w b a s h) as Hlen.
    pose proof (UpdateBlendWeights_cons w b a s h E) as Heq.
    cbn zeta in Heq. rewrite Heq in Hlen |- *. cbn [bValid returned] in *.
    unfold TArray.Num. rewrite Hlen.
    destruct (BlendComponents s); [done|].
    symmetry. apply Z.ltb_lt. simpl. lia.
Qed.

(** X2.  An update copies each record into its component: afterwards every
    registered component holds a record of the returned array that names
    it -- the only such record when the registry has no duplicates -- and
    the storage of every other component is as it was. *)
Theorem components_hold_their_records w b s h target :
  BlendTarget s = Some target → IsValidActor w target = true →
  ShouldUpdateDistance w s = true →
  let o := GetBlendWeights w b s h in
  (∀ c, c ∈ BlendComponents s →
     ∃ W, store' o !! c = Some W ∧ W ∈ returned o ∧ Component W = Some c
          ∧ (NoDup (BlendComponents s) →
             ∀ W', W' ∈ returned o → Component W' = Some c → W' = W))
  ∧ (∀ c, c ∉ BlendComponents s → store' o !! c = h !! c).
Proof.
  intros Ht Hv Hupd o. unfold o.
  rewrite (GetBlendWeights_updates w b s h target) by done.
  split.
  - intros c Hc.
    destruct (UpdateBlendWeights_store w b target s h c) as [_ Hin].
    destruct (Hin Hc) as (W & Hl & HW & HcW).
    exists W. repeat split; try done.
    intros Hnd W' HW' HcW'.
    apply (NoDup_map_eq Component
             (returned (UpdateBlendWeights w b target s h))); try done.
    + rewrite UpdateBlendWeights_components.
      clear -Hnd. induction Hnd as [|x l Hx _ IH]; cbn [map].
      * apply NoDup_nil_2.
      * apply NoDup_cons. split; [|done].
        intros (y & [= ->] & Hy)%elem_of_map. done.
    + by rewrite HcW, HcW'.
  - intros c Hc.
    by destruct (UpdateBlendWeights_store w b target s h c) as [Hout _];
      apply Hout.
Qed.

(** X3.  What an evaluation returns depends only on the registry and on
    each registered component's scalar and distance: not on the cache, the
    last valid snapshot, the components' storage, the frame number, or on
    where the actors are beyond those distances. *)
Theorem weights_depend_on_scalars_and_distances
    w1 w2 b1 b2 s1 s2 h1 h2 (a1 a2 : Actor) :
  BlendTarget s1 = Some a1 → IsValidActor w1 a1 = true →
  ShouldUpdateDistance w1 s1 = true →
  BlendTarget s2 = Some a2 → IsValidActor w2 a2 = true →
  ShouldUpdateDistance w2 s2 = true →
  BlendComponents s1 = BlendComponents s2 →
  (∀ c, c ∈ BlendComponents s1 →
        GetBlendScalar w1 c = GetBlendScalar w2 c
        ∧ DistanceTo w1 a1 b1 c = DistanceTo w2 a2 b2 c) →
  returned (GetBlendWeights w1 b1 s1 h1)
  = returned (GetBlendWeights w2 b2 s2 h2).
Proof.
  intros Ht1 Hv1 Hu1 Ht2 Hv2 Hu2 Hreg Hsame.
  rewrite (GetBlendWeights_updates w1 b1 s1 h1 a1) by done.
  rewrite (GetBlendWeights_updates w2 b2 s2 h2 a2) by done.
  by apply UpdateBlendWeights_returned_ext.
Qed.

(** X4.  Registering or unregistering a component does not touch the
    cache or the frame stamp: in a frame that was already evaluated
    [GetBlendWeights] keeps returning the array computed before the change,
    without calling the engine.  Once the frame counter differs from the
    stamp and the target resolves, the returned records name exactly the
    changed registry. *)
Theorem registry_changes_wait_for_next_frame w w' b s h c target :
  LastUpdateFrame s = GFrameCounter w →
  (returned (GetBlendWeights w b (RegisterBlendComponent c s) h)
   = BlendWeights s
   ∧ calls (GetBlendWeights w b (RegisterBlendComponent c s) h) = []
   ∧ returned (GetBlendWeights w b (UnregisterBlendComponent c s) h)
     = BlendWeights s
   ∧ calls (GetBlendWeights w b (UnregisterBlendComponent c s) h) = [])
  ∧ (BlendTarget s = Some target → IsValidActor w' target = true →
     GFrameCounter w' ≠ LastUpdateFrame s →
     map Component
         (returned (GetBlendWeights w' b (RegisterBlendComponent c s) h))
     = map Some (TArray.AddUnique (BlendComponents s) c)
     ∧ map Component
           (returned (GetBlendWeights w' b (UnregisterBlendComponent c s) h))
       = map Some (TArray.Remove (BlendComponents s) c)).
Proof.
  intros Hstamp. split.
  - unfold GetBlendWeights, ShouldUpdateDistance.
    cbn [RegisterBlendComponent UnregisterBlendComponent BlendTarget
         LastUpdateFrame BlendWeights].
    rewrite Hstamp, Z.eqb_refl. cbn [negb].
    destruct (BlendTarget s) as [a|]; [|done].
    by destruct (IsValidActor w a).
  - intros Ht Hv Hframe.
    assert (Hupd : ∀ s', LastUpdateFrame s' = LastUpdateFrame s →
                         ShouldUpdateDistance w' s' = true).
    { intros s' Hs'. unfold ShouldUpdateDistance. rewrite Hs'.
      apply negb_true_iff, Z.eqb_neq, Hframe. }
    rewrite (GetBlendWeights_updates w' b (RegisterBlendComponent c s) h target);
      [|done|done|by apply Hupd].
    rewrite (GetBlendWeights_updates w' b (UnregisterBlendComponent c s) h target);
      [|done|done|by apply Hupd].
    by rewrite !UpdateBlendWeights_components.
Qed.

(** X5.  In a subsystem driven only through its member functions the
    cache is either empty or equal to the last valid snapshot.  So after a
    [GetBlendWeights] that reports valid data, [GetLastValidBlendWeights]
    returns that same array, as valid. *)
Theorem cache_agrees_with_last_valid ops h0 :
  let s := (run ops (Subsystem_new, h0)).1 in
  cache_is_last_valid s
  ∧ ∀ w b h, let o := GetBlendWeights w b s h in
      bValid o = true →
      GetLastValidBlendWeights (subsystem' o) = (returned o, true).
Proof.
  intros s.
  assert (Hinv : cache_is_last_valid s).
  { unfold s.
    apply (run_invariant (λ st, cache_is_last_valid st.1)); [|by left].
    intros [s1 h1] op Hs1. cbn [fst] in Hs1.
    destruct op as [c|c|t|w b|]; cbn [step fst]; try done.
    - unfold AssignBlendTarget. case_decide; [by left|done].
    - by apply GetBlendWeights_cache_is_last_valid. }
  split; [done|]. intros w b h o Hvalid.
  pose proof (GetBlendWeights_cache_is_last_valid w b s h Hinv) as Hinv'.
  destruct (GetBlendWeights_members w b s h) as (_ & _ & Hret).
  pose proof (GetBlendWeights_stamped w b s h) as Hst.
  cbn zeta in Hret, Hst. fold o in Hinv', Hret, Hst.
  assert (Hne : (0 <? TArray.Num (BlendWeights (subsystem' o))) = true).
  { destruct Hst as [[_ Hf]|(_ & _ & Hb)]; congruence. }
  unfold GetLastValidBlendWeights. rewrite Hret.
  destruct Hinv' as [Hnil|Heq].
  - rewrite Hnil in Hne. discriminate Hne.
  - by rewrite <- Heq, Hne.
Qed.

(** X6.  Registration round trips: unregistering a component right after
    registering it restores the subsystem when it was not registered
    before; registering twice is registering once, unregistering twice is
    unregistering once; a component is registered after
    [RegisterBlendComponent] and not after [UnregisterBlendComponent]; and
    re-registering an unregistered component puts it last. *)
Theorem register_unregister_round_trip c s :
  (c ∉ BlendComponents s →
   UnregisterBlendComponent c (RegisterBlendComponent c s) = s)
  ∧ RegisterBlendComponent c (RegisterBlendComponent c s)
    = RegisterBlendComponent c s
  ∧ UnregisterBlendComponent c (UnregisterBlendComponent c s)
    = UnregisterBlendComponent c s
  ∧ c ∈ BlendComponents (RegisterBlendComponent c s)
  ∧ BlendComponents (RegisterBlendComponent c (UnregisterBlendComponent c s))
    = TArray.Remove (BlendComponents s) c ++ [c].
Proof.
  assert (Hgone : ∀ l : list Comp, c ∉ TArray.Remove l c).
  { intros l. unfold TArray.Remove. rewrite list_elem_of_filter. tauto. }
  split; [|split; [|split; [|split]]].
  - intros Hc. destruct s as [l f t ws lv].
    unfold UnregisterBlendComponent, RegisterBlendComponent. cbn. f_equal.
    unfold TArray.AddUnique, TArray.Add, TArray.Remove.
    rewrite decide_False by done. rewrite filter_app.
    fold (TArray.Remove l c). rewrite (Remove_absent l c Hc).
    rewrite filter_cons_False; [by rewrite app_nil_r | tauto].
  - unfold RegisterBlendComponent. cbn. f_equal.
    unfold TArray.AddUnique at 1. rewrite decide_True; [done|].
    unfold TArray.AddUnique, TArray.Add. case_decide; [done|].
    apply elem_of_app. right. apply list_elem_of_here.
  - unfold UnregisterBlendComponent. cbn. f_equal.
    by apply Remove_absent.
  - cbn. unfold TArray.AddUnique, TArray.Add. case_decide; [done|].
    apply elem_of_app. right. apply list_elem_of_here.
  - cbn. unfold TArray.AddUnique, TArray.Add. by rewrite decide_False.
Qed.

(** X7.  With a target that is a player camera manager the distances are
    measured to the camera: where the camera manager actor itself is has
    no influence on the result, as long as it owns no registered
    component. *)
Theorem camera_target_ignores_actor_location w b s h target (v : FVector) :
  BlendTarget s = Some target → IsValidActor w target = true →
  ShouldUpdateDistance w s = true →
  IsPlayerCameraManager w target = true →
  (∀ c, c ∈ BlendComponents s → GetOwner w c ≠ target) →
  let w' := {| GFrameCounter := GFrameCounter w;
               IsValidActor := IsValidActor w;
               GetActorLocation :=
                 λ a, if decide (a = target) then v else GetActorLocation w a;
               IsPlayerCameraManager := IsPlayerCameraManager w;
               GetCameraLocation := GetCameraLocation w;
               GetOwner := GetOwner w;
               GetBlendScalar := GetBlendScalar w |} in
  returned (GetBlendWeights w' b s h) = returned (GetBlendWeights w b s h)
  ∧ ∀ c, c ∈ BlendComponents s →
      DistanceTo w target b c
      = (if b then Size2D else Size)
          (FVector_sub (GetCameraLocation w target)
                       (GetActorLocation w (GetOwner w c))).
Proof.
  intros Ht Hv Hupd Hcam Hown w'. split.
  - rewrite (GetBlendWeights_updates w' b s h target) by done.
    rewrite (GetBlendWeights_updates w b s h target) by done.
    apply UpdateBlendWeights_returned_ext; [done|].
    intros c Hc. split; [done|].
    unfold DistanceTo, GatherOne, TargetLocation.
    cbn [Dist with_Dist with_Scalar IsPlayerCameraManager GetCameraLocation
         GetActorLocation GetOwner w'].
    rewrite Hcam. by rewrite decide_False by by apply Hown.
  - intros c Hc. unfold DistanceTo, GatherOne, TargetLocation.
    cbn [Dist with_Dist with_Scalar]. rewrite Hcam. by destruct b.
Qed.

End SubsystemMore.

(** * Further properties in exact arithmetic *)

Module ExactMore.
Import Exact ExactFacts.
Local Open Scope Q_scope.

Implicit Types (x y : XQ) (p q : Q) (W : FDistanceBlendWeight)
  (ws : list FDistanceBlendWeight).













(** *** Special values *)


















(** *** Scalars of either sign *)







(** ** Further theorems on the numbers *)








(** ** The further theorems at work on concrete worlds *)

Lemma components_hold_their_records_witness :
  (∃ W, store' (GetBlendWeights world_10_20_30 true registered_3 ∅)
          !! 2%positive = Some W
        ∧ W ∈ returned (GetBlendWeights world_10_20_30 true registered_3 ∅)
        ∧ Component W = Some 2%positive)
  ∧ store' (GetBlendWeights world_10_20_30 true registered_3 ∅) !! 4%positive
    = (∅ : CompStore) !! 4%positive.
Proof.
  destruct (components_hold_their_records
              world_10_20_30 true registered_3 ∅ 1%positive
              eq_refl eq_refl eq_refl) as [Hin Hout].
  split.
  - destruct (Hin 2%positive) as (W & Hl & HW & HcW & _).
    + apply list_elem_of_In. vm_compute. auto.
    + by exists W.
  - apply Hout. rewrite list_elem_of_In. vm_compute. intuition discriminate.
Defined.

Lemma weights_depend_on_scalars_and_distances_witness :
  BlendWeights registered_3 = [] ∧ length (BlendWeights evaluated_3) = 3%nat
  ∧ returned (GetBlendWeights world_10_20_30 true registered_3 ∅)
    = returned (GetBlendWeights world_next_frame true evaluated_3 ∅).
Proof.
  split; [reflexivity|]. split; [reflexivity|].
  apply (weights_depend_on_scalars_and_distances
           world_10_20_30 world_next_frame true true
           registered_3 evaluated_3 ∅ ∅ 1%positive 1%positive);
    try reflexivity.
  intros c _. split; reflexivity.
Defined.

Lemma registry_changes_wait_for_next_frame_witness :
  LastUpdateFrame evaluated_3 = GFrameCounter world_10_20_30
  ∧ returned (GetBlendWeights world_10_20_30 true
                (RegisterBlendComponent 4%positive evaluated_3) ∅)
    = BlendWeights evaluated_3
  ∧ map Component
        (returned (GetBlendWeights world_next_frame true
                     (RegisterBlendComponent 4%positive evaluated_3) ∅))
    = map Some [1%positive; 2%positive; 3%positive; 4%positive].
Proof.
  split; [reflexivity|].
  destruct (registry_changes_wait_for_next_frame
              world_10_20_30 world_next_frame true evaluated_3 ∅
              4%positive 1%positive eq_refl) as [(Hsame & _) Hnext].
  split; [exact Hsame|].
  destruct (Hnext eq_refl eq_refl) as [Hreg _]; [discriminate|].
  exact Hreg.
Defined.

Lemma camera_target_ignores_actor_location_witness :
  IsPlayerCameraManager world_camera 1%positive = true
  ∧ returned (GetBlendWeights world_camera_moved true registered_3 ∅)
    = returned (GetBlendWeights world_camera true registered_3 ∅).
Proof.
  split; [reflexivity|].
  refine (proj1 (camera_target_ignores_actor_location
                   world_camera true registered_3 ∅ 1%positive (vec (-3) 7 50)
                   eq_refl eq_refl eq_refl eq_refl _)).
  intros c _. cbn. unfold owner_of. lia.
Defined.








End ExactMore.

(** * The special values in binary32

    The two unguarded inputs, run in the arithmetic the source is compiled
    to: the outcome is that of the exact model, NaN for NaN and zero for
    zero, and [bValid] is true both times. *)

Module Binary32More.
Import Binary32.

Example binary32_zero_distance :
  let o := GetBlendWeights b32_world_zero_distance true registered_2 ∅ in
  map Dist (returned o) = [S754_zero false; of_Z 5]
  ∧ map BlendWeight (returned o) = [S754_nan; S754_zero false]
  ∧ bValid o = true.
Proof. cbn zeta. repeat split; vm_compute; reflexivity. Qed.

Example binary32_zero_scalar :
  let o := GetBlendWeights b32_world_zero_scalar true registered_2 ∅ in
  map Scalar (returned o) = [of_Z 1; S754_zero false]
  ∧ map BlendWeight (returned o) = [S754_nan; S754_nan]
  ∧ bValid o = true.
Proof. cbn zeta. repeat split; vm_compute; reflexivity. Qed.

End Binary32More.
